(** * remote-sensing/supervised.py: distributed evaluation, LR schedule and
      checkpoint protocol of the supervised change-detection trainer.

    The development embeds [evaluate] and [main] of
    [src/remote-sensing/supervised.py]:

    - [Py]          exceptions, [int()], [max], [range], [os.path.join],
                    numpy-style arrays;
    - [Evaluation]  [evaluate]: resizing, per-batch counting, collective
                    reduction, final ratios (lines 32-78);
    - [Schedule]    the polynomial learning-rate decay of the training loop
                    (lines 141-142, 167-186);
    - [Train]       [main]: configuration, resume, the epoch loop and the
                    checkpoint writes (lines 81-221);
    - [Toy], [ToyRun]  small concrete instances on which the definitions
                    run;
    - [Optimizer], [Logging], [Resume], [ToyMore]  the initial parameter
                    groups (lines 115-117), the progress line (line 192)
                    and quantities for whole runs;
    - [ResizeFacts], [EvalFacts], [ScheduleFacts], [TrainFacts]  what is
                    proved of them;
    - [EvalMore], [ScheduleMore], [TrainMore]  further facts: errors and
                    edge cases, invariances, resumption.

    The model, the tensors, the data loaders and the optimizer are external
    to the file and enter as section variables.  Of the library calls two
    ways to fail are kept, because the loop reaches them: [F.interpolate]
    refuses an output size that is not positive ([RuntimeError]), and
    [torch.load] a file it cannot unpickle.  [util.utils] is imported
    by the source and not part of it: [AverageMeter] is modelled from the
    specification, [intersectionAndUnion] is a parameter.

    Numbers.  Python [int]s and pixel counts are [Z].  The binary64 metrics
    (IoU, accuracy) only go through [+], [*], [/] and comparisons; they are
    idealised as exact rationals kept in lowest terms ([Qred]), so that
    equal values are equal terms and everything evaluates.  The learning
    rate needs the power [x ** 0.9] and is idealised in [R]. *)

From Stdlib Require Import ZArith QArith Qround Qreduction Qreals Reals Lra Lia
  Sorted.
From Stdlib Require Import Ascii.
From Stdlib Require Lqa.
From stdpp Require Import gmap strings list fin_maps.

#[local] Open Scope Z_scope.

(* ===================================================================== *)
(** ** Python values and control effects *)
(* ===================================================================== *)

Module Py.

(** Ways a worker process stops without a value.  [Deadlock] is the
    outcome of a collective call for which some peer makes no matching call
    in the same pass; what the process group does with such a call is not
    followed further. *)
Inductive failure : Set :=
| ZeroDivisionError
| IndexError
| TypeError
| KeyError
| RuntimeError
| EOFError
| UnpicklingError
| Deadlock.

Inductive result (A : Type) : Type :=
| Ok (a : A)
| Raise (e : failure).
Arguments Ok {A} a.
Arguments Raise {A} e.

#[export] Instance result_ret : MRet result := fun _ a => Ok a.
#[export] Instance result_bind : MBind result := fun _ _ f c =>
  match c with
  | Ok a => f a
  | Raise e => Raise e
  end.

Definition of_option {A} (e : failure) (o : option A) : result A :=
  match o with
  | Some a => Ok a
  | None => Raise e
  end.

Definition to_option {A} (c : result A) : option A :=
  match c with
  | Ok a => Some a
  | Raise _ => None
  end.

(** Float arithmetic, idealised: exact and in lowest terms. *)
Definition fadd (a b : Q) : Q := Qred (a + b).
Definition fmul (a b : Q) : Q := Qred (a * b).

(** numpy's elementwise [/]: never raises.  Every divisor it meets below is
    an integer plus [1e-10], hence non-zero, so the quotient is exact. *)
Definition fdiv (a b : Q) : Q := Qred (a / b).

(** [a / b] on Python numbers: raises on a zero divisor. *)
Definition truediv (a b : Q) : result Q :=
  if Qeq_bool b 0 then Raise ZeroDivisionError else Ok (Qred (a / b)).

(** [int(x)]: truncation toward zero. *)
Definition int (x : Q) : Z := Z.quot (Qnum x) (Zpos (Qden x)).

(** [a >= b] on floats. *)
Definition ge (a b : Q) : bool := Qle_bool b a.

(** [max(a, b)]: the first argument unless the second is strictly
    larger. *)
Definition max (a b : Q) : Q := if Qle_bool b a then a else b.

(** [range(lo, hi)]. *)
Definition range (lo hi : Z) : list Z := seqZ lo (hi - lo).

(** [s.endswith('/')] *)
Fixpoint ends_with_sep (s : string) : bool :=
  match s with
  | EmptyString => false
  | String c EmptyString => Ascii.eqb c "/"%char
  | String _ s' => ends_with_sep s'
  end.

(** [os.path.join(dir, name)] for a relative [name]. *)
Definition path_join (dir name : string) : string :=
  if decide (dir = EmptyString) then name
  else if ends_with_sep dir then dir +:+ name
  else dir +:+ "/" +:+ name.

(** A numpy value: a bare scalar or a one-dimensional array. *)
Inductive ndarray (A : Type) : Type :=
| Scalar (a : A)
| Array (l : list A).
Arguments Scalar {A} a.
Arguments Array {A} l.

(** Broadcasting binary operation ([x op y] on numpy values; arrays that
    meet have the same length). *)
Definition broadcast {A B C} (op : A -> B -> C)
    (x : ndarray A) (y : ndarray B) : ndarray C :=
  match x, y with
  | Scalar a, Scalar b => Scalar (op a b)
  | Scalar a, Array l => Array (map (op a) l)
  | Array l, Scalar b => Array (map (fun a => op a b) l)
  | Array l, Array l' => Array (zip_with op l l')
  end.

(** Conversion of integer counts to floats. *)
Definition astype_float (x : ndarray Z) : ndarray Q :=
  match x with
  | Scalar a => Scalar (inject_Z a)
  | Array l => Array (map inject_Z l)
  end.

(** [x[i]]: a scalar is not subscriptable. *)
Definition getitem {A} (x : ndarray A) (i : nat) : result A :=
  match x with
  | Scalar _ => Raise TypeError
  | Array l => of_option IndexError (l !! i)
  end.

End Py.
Import Py.

(* ===================================================================== *)
(** ** Configuration *)
(* ===================================================================== *)

(** The entries of the YAML configuration that [main] and [evaluate] read
    ([cfg['batch_size']], [cfg['epochs']], ...). *)
Record Config : Type := {
  cfg_batch_size : Z;
  cfg_epochs : Z;
  cfg_lr : Q;
  cfg_lr_multi : Q;
  cfg_nclass : Z;
  cfg_model : string;
  cfg_backbone : string;
  cfg_dataset : string;
  cfg_crop_size : Z
}.

(* ===================================================================== *)
(** ** [evaluate] *)
(* ===================================================================== *)

(** Modelled from the spec: [util.utils.AverageMeter] is imported, not
    defined, by the source.  Of the meter only the running [sum] is read:
    "a running sum, not an average", started at [0] and increased by each
    value passed to [update]. *)
Module AverageMeter.

Record t : Type := { sum : ndarray Z }.

Definition new : t := {| sum := Scalar 0 |}.

Definition update (m : t) (val : ndarray Z) : t :=
  {| sum := broadcast Z.add (sum m) val |}.

End AverageMeter.

Module Evaluation.

(** [mode=] argument of [F.interpolate]. *)
Inductive interp_mode : Set := Nearest | Bilinear | Bicubic.

(** [int(ori / multiplier + 0.5) * multiplier] (line 47). *)
Definition resize_dim (ori multiplier : Z) : result Z :=
  q ← truediv (inject_Z ori) (inject_Z multiplier);
  mret (int (fadd q (1 # 2)) * multiplier).

(** The specification's reading of that line: the smallest multiple of the
    multiplier that is at least the original dimension. *)
Definition rounds_up_to (ori multiplier r : Z) : Prop :=
  (multiplier | r) /\ ori <= r /\
  forall r', (multiplier | r') -> ori <= r' -> r <= r'.

(** [dist.all_reduce(t)]: the elementwise sum of what every rank of the
    group passes to this call, returned to each of them. *)
Definition all_reduce (contributions : list (ndarray Z)) : ndarray Z :=
  foldr (broadcast Z.add) (Scalar 0) contributions.

(** What one batch contributes on the worker that sees it. *)
Record counts : Type := {
  intersection : list Z;
  union : list Z;
  target : list Z;
  correct : Z;
  numel : Z
}.

(** The four meters of lines 34-37. *)
Record meters : Type := {
  intersection_meter : AverageMeter.t;
  union_meter : AverageMeter.t;
  correct_pixel : AverageMeter.t;
  total_pixel : AverageMeter.t
}.

Definition new_meters : meters :=
  {| intersection_meter := AverageMeter.new;
     union_meter := AverageMeter.new;
     correct_pixel := AverageMeter.new;
     total_pixel := AverageMeter.new |}.

(** Lines 69-73, given the reduced arrays and this worker's own batch. *)
Definition update_meters (m : meters)
    (reduced_intersection reduced_union : ndarray Z) (c : counts) : meters :=
  {| intersection_meter :=
       AverageMeter.update (intersection_meter m) reduced_intersection;
     union_meter := AverageMeter.update (union_meter m) reduced_union;
     correct_pixel := AverageMeter.update (correct_pixel m) (Scalar (correct c));
     total_pixel := AverageMeter.update (total_pixel m) (Scalar (numel c)) |}.

(** Line 75: [intersection_meter.sum / (union_meter.sum + 1e-10) * 100.0]. *)
Definition iou_of (isum usum : ndarray Z) : ndarray Q :=
  broadcast fmul
    (broadcast fdiv (astype_float isum)
       (broadcast fadd (astype_float usum) (Scalar (1 # 10000000000))))
    (Scalar 100%Q).

(** Line 76: [correct_pixel.sum / total_pixel.sum * 100.0], on Python
    floats.  Both meters are only ever updated with scalars. *)
Definition acc_of (csum tsum : ndarray Z) : result Q :=
  match csum, tsum with
  | Scalar c, Scalar t =>
      q ← truediv (inject_Z c) (inject_Z t);
      mret (fmul q 100%Q)
  | _, _ => Raise TypeError
  end.

Section Evaluate.
(** Tensors and the external operations on them. *)
Variable Tensor : Type.
(** [t.shape[-2:]] *)
Variable shape : Tensor -> Z * Z.
(** The resampling of [F.interpolate(t, size, mode=, align_corners=)] on
    the sizes the library accepts. *)
Variable interpolate : Tensor -> Z * Z -> interp_mode -> bool -> Tensor.
(** [model(imgA, imgB)] in eval mode, without gradients. *)
Variable model : Tensor -> Tensor -> Tensor.
(** [t.argmax(dim=1)], flattened to a list of class labels. *)
Variable argmax : Tensor -> list Z.
(** [util.utils.intersectionAndUnion(output, target, K, ignore_index)]:
    imported by the source, a parameter here. *)
Variable intersectionAndUnion :
  list Z -> list Z -> Z -> Z -> list Z * list Z * list Z.

(** One item of the loader: [imgA, imgB, mask] (the [id] is not used). *)
Record batch : Type := {
  imgA : Tensor;
  imgB : Tensor;
  mask : list Z
}.

(** The call [F.interpolate(t, size, mode=, align_corners=)] itself: the
    library refuses an output size with a component that is not positive
    ("Input and output sizes should be greater than 0") and raises
    [RuntimeError]; on the sizes it accepts it is [interpolate]. *)
Definition F_interpolate (t : Tensor) (size : Z * Z) (mode : interp_mode)
    (align_corners : bool) : result Tensor :=
  if (0 <? size.1) && (0 <? size.2)
  then Ok (interpolate t size mode align_corners)
  else Raise RuntimeError.

(** Lines 45-56: from the two images to the per-pixel prediction. *)
Definition predict (multiplier : option Z) (imgA imgB : Tensor)
    : result (list Z) :=
  match multiplier with
  | Some m =>
      let '(ori_h, ori_w) := shape imgA in
      new_h ← resize_dim ori_h m;
      new_w ← resize_dim ori_w m;
      imgA ← F_interpolate imgA (new_h, new_w) Bilinear true;
      imgB ← F_interpolate imgB (new_h, new_w) Bilinear true;
      let pred := model imgA imgB in
      pred ← F_interpolate pred (ori_h, ori_w) Bilinear true;
      mret (argmax pred)
  | None =>
      mret (argmax (model imgA imgB))
  end.

(** The images of a batch are large enough for the resize of lines 47-49
    to be accepted: no multiplier, or a positive one that is at most twice
    the height and twice the width. *)
Definition batch_fits (multiplier : option Z) (b : batch) : Prop :=
  match multiplier with
  | None => True
  | Some m =>
      0 < m /\ m <= 2 * (shape (imgA b)).1 /\ m <= 2 * (shape (imgA b)).2
  end.

(** Lines 45-59 and 72-73: everything a worker computes from one batch
    before and besides the collective calls.  [(pred == mask).sum()] counts
    the positions where the two label maps agree. *)
Definition count_batch (cfg : Config) (multiplier : option Z) (b : batch)
    : result counts :=
  pred ← predict multiplier (imgA b) (imgB b);
  let '(i, u, t) := intersectionAndUnion pred (mask b) (cfg_nclass cfg) 255 in
  mret {| intersection := i; union := u; target := t;
          correct :=
            Z.of_nat
              (length (filter (fun pm => pm.1 = pm.2) (zip pred (mask b))));
          numel := Z.of_nat (length pred) |}.

(** The loop of lines 40-73 on one worker.  [loader] is what is left of the
    worker's own shard, [group] what is left of the shard of every rank of
    the process group (this worker included).  Every rank makes the same
    calls in the same order, so the collective calls of this worker's k-th
    batch meet those of every peer's k-th batch; a peer without a k-th
    batch, or stopped by an exception before its call, makes no matching
    call in this pass. *)
Fixpoint eval_loop (cfg : Config) (multiplier : option Z)
    (loader : list batch) (group : list (list batch)) (m : meters)
    : result meters :=
  match loader with
  | [] => Ok m
  | b :: loader' =>
      c ← count_batch cfg multiplier b;
      peers ← of_option Deadlock
        (mapM (fun shard => b' ← head shard;
                             to_option (count_batch cfg multiplier b')) group);
      let reduced_intersection :=
        all_reduce ((fun p => Array (intersection p)) <$> peers) in
      let reduced_union :=
        all_reduce ((fun p => Array (union p)) <$> peers) in
      (* lines 63 and 67; the reduced array is not read afterwards *)
      let reduced_target :=
        all_reduce ((fun p => Array (target p)) <$> peers) in
      eval_loop cfg multiplier loader' (tail <$> group)
        (update_meters m reduced_intersection reduced_union c)
  end.

(** [evaluate(model, loader, cfg, multiplier)], run by one rank of
    [group]. *)
Definition evaluate (group : list (list batch)) (loader : list batch)
    (cfg : Config) (multiplier : option Z) : result (ndarray Q * Q) :=
  m ← eval_loop cfg multiplier loader group new_meters;
  let iou_class :=
    iou_of (AverageMeter.sum (intersection_meter m))
           (AverageMeter.sum (union_meter m)) in
  overall_acc ← acc_of (AverageMeter.sum (correct_pixel m))
                       (AverageMeter.sum (total_pixel m));
  mret (iou_class, overall_acc).

(** The specification's order of reduction: each worker accumulates its own
    shard over the whole pass, then one all-reduce per count array. *)
Definition accumulate_local (cfg : Config) (multiplier : option Z)
    (field : counts -> list Z) (shard : list batch) : result (ndarray Z) :=
  cs ← mapM (count_batch cfg multiplier) shard;
  mret (foldl (fun acc c => broadcast Z.add acc (Array (field c)))
              (Scalar 0) cs).

Definition reduce_at_end (cfg : Config) (multiplier : option Z)
    (field : counts -> list Z) (group : list (list batch))
    : result (ndarray Z) :=
  sums ← mapM (accumulate_local cfg multiplier field) group;
  mret (all_reduce sums).

(** Pixel totals of a set of shards: correct and counted pixels. *)
Definition pixel_totals (cfg : Config) (multiplier : option Z)
    (shards : list (list batch)) : result (Z * Z) :=
  cs ← mapM (count_batch cfg multiplier) (concat shards);
  mret (foldr Z.add 0 (correct <$> cs), foldr Z.add 0 (numel <$> cs)).

End Evaluate.

Arguments Build_batch {Tensor} imgA imgB mask.
Arguments imgA {Tensor} b.
Arguments imgB {Tensor} b.
Arguments mask {Tensor} b.
Arguments F_interpolate {Tensor} interpolate t size mode align_corners.
Arguments predict {Tensor} shape interpolate model argmax multiplier imgA imgB.
Arguments batch_fits {Tensor} shape multiplier b.
Arguments count_batch {Tensor} shape interpolate model argmax
  intersectionAndUnion cfg multiplier b.
Arguments eval_loop {Tensor} shape interpolate model argmax
  intersectionAndUnion cfg multiplier loader group m.
Arguments evaluate {Tensor} shape interpolate model argmax
  intersectionAndUnion group loader cfg multiplier.
Arguments accumulate_local {Tensor} shape interpolate model argmax
  intersectionAndUnion cfg multiplier field shard.
Arguments reduce_at_end {Tensor} shape interpolate model argmax
  intersectionAndUnion cfg multiplier field group.
Arguments pixel_totals {Tensor} shape interpolate model argmax
  intersectionAndUnion cfg multiplier shards.

(** *** Quantities in which the facts about [evaluate] are stated *)

(** The multiple of [multiplier] nearest to [ori], the upper one when two
    are equally near. *)
Definition nearest_multiple (ori multiplier r : Z) : Prop :=
  (multiplier | r) /\ 2 * ori - multiplier < 2 * r <= 2 * ori + multiplier.

Definition no_counts : counts :=
  {| intersection := []; union := []; target := []; correct := 0; numel := 0 |}.

(** The count of class [k] in one array, summed over a list of batches as
    plain integers. *)
Definition class_total (field : counts -> list Z) (k : nat)
    (cs : list counts) : Z :=
  foldr Z.add 0 ((fun c => nth k (field c) 0) <$> cs).

Definition class_totals (field : counts -> list Z) (nclass : nat)
    (cs : list counts) : list Z :=
  (fun k => class_total field k cs) <$> seq 0 nclass.

(** The sum of one count array over a worker's whole shard. *)
Definition local_sum (field : counts -> list Z) (cs : list counts)
    : ndarray Z :=
  foldl (fun acc c => broadcast Z.add acc (Array (field c))) (Scalar 0) cs.

(** The sum over the first [n] rounds of the all-reduced count array, each
    round taking one batch from every shard. *)
Fixpoint rounds (field : counts -> list Z) (n : nat)
    (group : list (list counts)) : ndarray Z :=
  match n with
  | O => Scalar 0
  | S n' =>
      broadcast Z.add
        (all_reduce ((fun s => Array (field (hd no_counts s))) <$> group))
        (rounds field n' (tail <$> group))
  end.

Section Counts.
Variable Tensor : Type.
Variable shape : Tensor -> Z * Z.
Variable interpolate : Tensor -> Z * Z -> interp_mode -> bool -> Tensor.
Variable model : Tensor -> Tensor -> Tensor.
Variable argmax : Tensor -> list Z.
Variable intersectionAndUnion :
  list Z -> list Z -> Z -> Z -> list Z * list Z * list Z.
Variable cfg : Config.
Variable multiplier : option Z.

(** The counts of a batch, as a total function. *)
Definition counts_of (b : batch Tensor) : counts :=
  match count_batch shape interpolate model argmax intersectionAndUnion
          cfg multiplier b with
  | Ok c => c
  | Raise _ => no_counts
  end.

Definition shard_counts (shard : list (batch Tensor)) : list counts :=
  counts_of <$> shard.

Definition group_counts (group : list (list (batch Tensor)))
    : list (list counts) :=
  shard_counts <$> group.

End Counts.

Arguments counts_of {Tensor} shape interpolate model argmax
  intersectionAndUnion cfg multiplier b.
Arguments shard_counts {Tensor} shape interpolate model argmax
  intersectionAndUnion cfg multiplier shard.
Arguments group_counts {Tensor} shape interpolate model argmax
  intersectionAndUnion cfg multiplier group.

End Evaluation.

(** A small concrete instance of the external operations, on which
    [evaluate] runs: a tensor is reduced to what [evaluate] observes of it,
    its spatial size and the class of highest score at each pixel. *)
Module Toy.

Record tensor : Type := { t_size : Z * Z; t_labels : list Z }.

Definition shape (t : tensor) : Z * Z := t_size t.

Definition interpolate (t : tensor) (size : Z * Z)
    (mode : Evaluation.interp_mode) (align_corners : bool) : tensor :=
  {| t_size := size; t_labels := t_labels t |}.

(** A network that answers with the classes carried by its first input. *)
Definition model (a b : tensor) : tensor := a.

Definition argmax (t : tensor) : list Z := t_labels t.

Definition count_where (P : Z * Z -> bool) (px : list (Z * Z)) : Z :=
  Z.of_nat (length (List.filter P px)).

(** Modelled from the spec: [util.utils.intersectionAndUnion] is imported,
    not defined, by the source.  "produce {intersection[c], union[c],
    target[c]} for each class c where pixels equal to ignore_label are
    excluded from all three counts". *)
Definition intersectionAndUnion (output target : list Z)
    (K ignore_index : Z) : list Z * list Z * list Z :=
  let px :=
    List.filter (fun p => negb (p.2 =? ignore_index)) (zip output target) in
  let classes := seqZ 0 K in
  ((fun c => count_where (fun p => (p.1 =? c) && (p.2 =? c)) px) <$> classes,
   (fun c => count_where (fun p => (p.1 =? c) || (p.2 =? c)) px) <$> classes,
   (fun c => count_where (fun p => p.2 =? c) px) <$> classes).

Definition cfg : Config :=
  {| cfg_batch_size := 4; cfg_epochs := 3; cfg_lr := 1 # 100;
     cfg_lr_multi := 10; cfg_nclass := 2; cfg_model := "dpt";
     cfg_backbone := "dinov2_small"; cfg_dataset := "levir";
     cfg_crop_size := 256 |}.

Definition image (h w : Z) (labels : list Z) : tensor :=
  {| t_size := (h, w); t_labels := labels |}.

Definition evaluate := Evaluation.evaluate shape interpolate model argmax
  intersectionAndUnion.

(** Two workers, one 2x2 batch each.  Rank 0 gets one pixel of four right,
    rank 1 all four. *)
Definition shard0 : list (Evaluation.batch tensor) :=
  [Evaluation.Build_batch (image 2 2 [1; 1; 1; 1]) (image 2 2 [0; 0; 0; 0])
     [1; 0; 0; 0]].

Definition shard1 : list (Evaluation.batch tensor) :=
  [Evaluation.Build_batch (image 2 2 [0; 0; 0; 0]) (image 2 2 [0; 0; 0; 0])
     [0; 0; 0; 0]].

Definition group : list (list (Evaluation.batch tensor)) := [shard0; shard1].

End Toy.

(* ===================================================================== *)
(** ** The learning-rate schedule of the training loop *)
(* ===================================================================== *)

Module Schedule.

(** [x ** y] on floats, for the bases [0 <= x] and exponents [0 < y] the
    loop produces: [0.0 ** y] is [0.0]. *)
Definition float_pow (x y : R) : R :=
  if Rle_dec x 0 then 0%R else Rpower x y.

(** Line 184: [cfg['lr'] * (1 - iters / total_iters) ** 0.9].  Inside the
    loop [total_iters] is not zero: a step only runs when the loader and
    the epoch range are not empty. *)
Definition lr_at (base_lr : R) (iters total_iters : Z) : R :=
  (base_lr * float_pow (1 - IZR iters / IZR total_iters) (9 / 10))%R.

(** What the inner loop carries from step to step: the trainable state,
    the rates of the two parameter groups (backbone, head) and [iters]. *)
Record loop_state (Params : Type) : Type := {
  params : Params;
  lr0 : R;
  lr1 : R;
  iters : Z
}.
Arguments params {Params} _.
Arguments lr0 {Params} _.
Arguments lr1 {Params} _.
Arguments iters {Params} _.

Section TrainingLoop.
Variable Params : Type.
(** Lines 169-181 on batch [i] of epoch [epoch]: forward pass, loss,
    barrier, backward pass and [optimizer.step()] with the rates currently
    held by the two parameter groups. *)
Variable optimizer_step : Params -> R -> R -> Z -> Z -> Params.
Variable cfg : Config.
(** [len(trainloader)] *)
Variable len_trainloader : Z.

(** Line 142. *)
Definition total_iters : Z := len_trainloader * cfg_epochs cfg.

(** One turn of the loop of line 167. *)
Definition train_step (epoch : Z) (s : loop_state Params) (i : Z)
    : loop_state Params :=
  let params := optimizer_step (params s) (lr0 s) (lr1 s) epoch i in
  let iters := epoch * len_trainloader + i in
  let lr := lr_at (Q2R (cfg_lr cfg)) iters total_iters in
  {| params := params;
     lr0 := lr;
     lr1 := (lr * Q2R (cfg_lr_multi cfg))%R;
     iters := iters |}.

(** The first [k] turns of epoch [epoch], and the whole epoch. *)
Definition train_steps (epoch : Z) (k : Z) (s : loop_state Params)
    : loop_state Params :=
  foldl (train_step epoch) s (range 0 k).

Definition train_epoch (epoch : Z) (s : loop_state Params)
    : loop_state Params :=
  train_steps epoch len_trainloader s.

End TrainingLoop.

Arguments train_step {Params} optimizer_step cfg len_trainloader epoch s i.
Arguments train_steps {Params} optimizer_step cfg len_trainloader epoch k s.
Arguments train_epoch {Params} optimizer_step cfg len_trainloader epoch s.

End Schedule.

(* ===================================================================== *)
(** ** [main]: configuration, resume, epochs, checkpoints *)
(* ===================================================================== *)

Module Train.

(** The arguments of [DataLoader(...)] that the source sets. *)
Record DataLoader : Type := {
  dl_batch_size : Z;
  dl_drop_last : bool;
  dl_num_workers : Z;
  dl_pin_memory : bool
}.

(** Line 91: [cfg['batch_size'] *= 2]. *)
Definition double_batch_size (cfg : Config) : Config :=
  {| cfg_batch_size := cfg_batch_size cfg * 2;
     cfg_epochs := cfg_epochs cfg;
     cfg_lr := cfg_lr cfg;
     cfg_lr_multi := cfg_lr_multi cfg;
     cfg_nclass := cfg_nclass cfg;
     cfg_model := cfg_model cfg;
     cfg_backbone := cfg_backbone cfg;
     cfg_dataset := cfg_dataset cfg;
     cfg_crop_size := cfg_crop_size cfg |}.

(** Lines 135-136 and 138-139. *)
Definition trainloader (cfg : Config) : DataLoader :=
  {| dl_batch_size := cfg_batch_size cfg;
     dl_drop_last := true;
     dl_num_workers := 1;
     dl_pin_memory := true |}.

Definition valloader : DataLoader :=
  {| dl_batch_size := 1;
     dl_drop_last := false;
     dl_num_workers := 1;
     dl_pin_memory := true |}.

(** Line 195: [14 if cfg['model'] == 'dpt' else None]. *)
Definition multiplier_of (cfg : Config) : option Z :=
  if decide (cfg_model cfg = "dpt") then Some 14 else None.

Section Main.
(** [model.state_dict()] and [optimizer.state_dict()]: the replica's
    weights and the optimizer's state, as they are saved and loaded. *)
Variable Weights : Type.
Variable OptState : Type.
(** Lines 110-126: the model built from the configuration with its
    pretrained backbone, and the optimizer of lines 115-117. *)
Variable init_model : Config -> Weights.
Variable init_optimizer : Config -> Weights -> OptState.
(** Lines 162-193: one epoch of training over [trainloader]. *)
Variable train_one_epoch :
  Config -> DataLoader -> Z -> Weights -> OptState -> Weights * OptState.
(** The call of line 195 on this rank: [Evaluation.evaluate] on the current
    weights, this rank's shard of [valloader] and the process group. *)
Variable evaluate :
  Weights -> DataLoader -> Config -> option Z -> result (ndarray Q * Q).

(** The state [main] carries across epochs (lines 141-152). *)
Record TrainingState : Type := {
  model : Weights;
  optimizer : OptState;
  epoch : Z;
  previous_best_iou : Q;
  previous_best_acc : Q
}.

(** The dictionary of lines 212-218 as a file may hold it: any of the five
    keys may be missing. *)
Record checkpoint : Type := {
  ck_model : option Weights;
  ck_optimizer : option OptState;
  ck_epoch : option Z;
  ck_previous_best_iou : option Q;
  ck_previous_best_acc : option Q
}.

(** The content of a file: a pickled dictionary (of which the five keys
    that are read are kept), a pickled object that is not a dictionary and
    cannot be subscripted by a string (a list, a number), or bytes that
    [torch.load] cannot read. *)
Inductive blob : Type :=
| Pickled (d : checkpoint)
| PickledOther
| Unreadable (bytes : list Z).

(** What [torch.load] returns: the dictionary, or the other object. *)
Inductive loaded : Type :=
| Dict (d : checkpoint)
| NotADict.

(** [torch.load(path)] on the content of the file: a file without bytes
    raises [EOFError], other unreadable bytes [UnpicklingError]. *)
Definition torch_load (b : blob) : result loaded :=
  match b with
  | Pickled d => Ok (Dict d)
  | PickledOther => Ok NotADict
  | Unreadable [] => Raise EOFError
  | Unreadable (_ :: _) => Raise UnpicklingError
  end.

(** [checkpoint[key]]: [KeyError] on a dictionary without the key,
    [TypeError] on an object that is not a dictionary. *)
Definition lookup_key {A} (c : loaded)
    (key : checkpoint -> option A) : result A :=
  match c with
  | Dict d => of_option KeyError (key d)
  | NotADict => Raise TypeError
  end.

(** Lines 212-218. *)
Definition checkpoint_of (s : TrainingState) : checkpoint :=
  {| ck_model := Some (model s);
     ck_optimizer := Some (optimizer s);
     ck_epoch := Some (epoch s);
     ck_previous_best_iou := Some (previous_best_iou s);
     ck_previous_best_acc := Some (previous_best_acc s) |}.

(** [torch.save(checkpoint, path)] *)
Definition torch_save (d : checkpoint) (path : string)
    (fs : gmap string blob) : gmap string blob :=
  <[path := Pickled d]> fs.

(** Lines 143-144 and the fresh model and optimizer. *)
Definition fresh_state (cfg : Config) : TrainingState :=
  let m := init_model cfg in
  {| model := m;
     optimizer := init_optimizer cfg m;
     epoch := -1;
     previous_best_iou := 0;
     previous_best_acc := 0 |}.

(** Lines 147-152, on the content of [latest.pth]. *)
Definition load_checkpoint (b : blob) : result TrainingState :=
  checkpoint ← torch_load b;
  m ← lookup_key checkpoint ck_model;
  o ← lookup_key checkpoint ck_optimizer;
  e ← lookup_key checkpoint ck_epoch;
  iou ← lookup_key checkpoint ck_previous_best_iou;
  acc ← lookup_key checkpoint ck_previous_best_acc;
  mret {| model := m; optimizer := o; epoch := e;
          previous_best_iou := iou; previous_best_acc := acc |}.

(** A file that holds a checkpoint as [main] writes them: a readable
    dictionary with all five keys. *)
Definition well_formed (b : blob) : Prop :=
  exists w o e iou acc,
    b = Pickled {| ck_model := Some w; ck_optimizer := Some o;
                   ck_epoch := Some e; ck_previous_best_iou := Some iou;
                   ck_previous_best_acc := Some acc |}.

(** Which branch of line 146 a run took. *)
Inductive start_kind : Set := Fresh | Resumed.

(** Lines 141-155. *)
Definition startup (cfg : Config) (save_path : string)
    (fs : gmap string blob) : result (start_kind * TrainingState) :=
  match fs !! path_join save_path "latest.pth" with
  | None => Ok (Fresh, fresh_state cfg)
  | Some b => s ← load_checkpoint b; mret (Resumed, s)
  end.

(** Lines 211-221: the writes of one epoch boundary, in order. *)
Definition checkpoint_writes (rank : Z) (save_path : string)
    (s : TrainingState) (is_best : bool) : list (string * checkpoint) :=
  if decide (rank = 0) then
    let checkpoint := checkpoint_of s in
    (path_join save_path "latest.pth", checkpoint) ::
    (if is_best then [(path_join save_path "best.pth", checkpoint)] else [])
  else [].

Definition apply_writes (ws : list (string * checkpoint))
    (fs : gmap string blob) : gmap string blob :=
  foldl (fun fs w => torch_save w.2 w.1 fs) fs ws.

(** The [previous_best_iou] entries of a sequence of writes. *)
Definition recorded_best_iou (ws : list (string * checkpoint)) : list Q :=
  omap (fun w => ck_previous_best_iou w.2) ws.

(** Lines 206-209: the trackers after an epoch whose evaluation gave
    [iou_class[1] = iou] and [overall_acc = acc]. *)
Definition track_best (epoch : Z) (w : Weights) (o : OptState)
    (iou acc : Q) (prev : TrainingState) : bool * TrainingState :=
  let is_best := ge iou (previous_best_iou prev) in
  let previous_best_iou := max iou (previous_best_iou prev) in
  let previous_best_acc := if is_best then acc else previous_best_acc prev in
  (is_best,
   {| model := w; optimizer := o; epoch := epoch;
      previous_best_iou := previous_best_iou;
      previous_best_acc := previous_best_acc |}).

(** The body of the loop of line 157 for one [epoch]: the new state and the
    writes it performs. *)
Definition run_epoch (rank : Z) (cfg : Config) (save_path : string)
    (epoch : Z) (s : TrainingState)
    : result (TrainingState * list (string * checkpoint)) :=
  let '(w, o) :=
    train_one_epoch cfg (trainloader cfg) epoch (model s) (optimizer s) in
  '(iou_class, overall_acc) ← evaluate w valloader cfg (multiplier_of cfg);
  _ ← (if decide (rank = 0)
       then _ ← getitem iou_class 0; getitem iou_class 1
       else mret 0%Q);
  iou ← getitem iou_class 1;
  let '(is_best, s') := track_best epoch w o iou overall_acc s in
  mret (s', checkpoint_writes rank save_path s' is_best).

(** What a run leaves behind: the state after each completed epoch, the
    writes in order, the files, and the exception that ended it, if any. *)
Record run : Type := {
  trajectory : list TrainingState;
  writes : list (string * checkpoint);
  files : gmap string blob;
  raised : option failure
}.

(** The loop of line 157 over the epochs [es]. *)
Fixpoint epoch_loop (rank : Z) (cfg : Config) (save_path : string)
    (es : list Z) (s : TrainingState) (fs : gmap string blob) : run :=
  match es with
  | [] => {| trajectory := []; writes := []; files := fs; raised := None |}
  | e :: es' =>
      match run_epoch rank cfg save_path e s with
      | Raise x =>
          {| trajectory := []; writes := []; files := fs; raised := Some x |}
      | Ok (s', ws) =>
          let r := epoch_loop rank cfg save_path es' s' (apply_writes ws fs) in
          {| trajectory := s' :: trajectory r;
             writes := ws ++ writes r;
             files := files r;
             raised := raised r |}
      end
  end.

(** [main()] on one rank, from the parsed configuration and the files
    under [save_path]. *)
Definition main (rank : Z) (cfg : Config) (save_path : string)
    (fs : gmap string blob) : run :=
  let cfg := double_batch_size cfg in
  match startup cfg save_path fs with
  | Raise x =>
      {| trajectory := []; writes := []; files := fs; raised := Some x |}
  | Ok (_, s) =>
      epoch_loop rank cfg save_path (range (epoch s + 1) (cfg_epochs cfg)) s fs
  end.

End Main.

Arguments Build_TrainingState {Weights OptState} model optimizer epoch
  previous_best_iou previous_best_acc.
Arguments model {Weights OptState} t.
Arguments optimizer {Weights OptState} t.
Arguments epoch {Weights OptState} t.
Arguments previous_best_iou {Weights OptState} t.
Arguments previous_best_acc {Weights OptState} t.
Arguments Build_checkpoint {Weights OptState} ck_model ck_optimizer ck_epoch
  ck_previous_best_iou ck_previous_best_acc.
Arguments ck_model {Weights OptState} c.
Arguments ck_optimizer {Weights OptState} c.
Arguments ck_epoch {Weights OptState} c.
Arguments ck_previous_best_iou {Weights OptState} c.
Arguments ck_previous_best_acc {Weights OptState} c.
Arguments Pickled {Weights OptState} d.
Arguments PickledOther {Weights OptState}.
Arguments Unreadable {Weights OptState} bytes.
Arguments Dict {Weights OptState} d.
Arguments NotADict {Weights OptState}.
Arguments torch_load {Weights OptState} b.
Arguments lookup_key {Weights OptState A} c key.
Arguments checkpoint_of {Weights OptState} s.
Arguments torch_save {Weights OptState} d path fs.
Arguments fresh_state {Weights OptState} init_model init_optimizer cfg.
Arguments load_checkpoint {Weights OptState} b.
Arguments well_formed {Weights OptState} b.
Arguments startup {Weights OptState} init_model init_optimizer cfg save_path fs.
Arguments checkpoint_writes {Weights OptState} rank save_path s is_best.
Arguments apply_writes {Weights OptState} ws fs.
Arguments recorded_best_iou {Weights OptState} ws.
Arguments track_best {Weights OptState} epoch w o iou acc prev.
Arguments run_epoch {Weights OptState} train_one_epoch evaluate rank cfg
  save_path epoch s.
Arguments Build_run {Weights OptState} trajectory writes files raised.
Arguments trajectory {Weights OptState} r.
Arguments writes {Weights OptState} r.
Arguments files {Weights OptState} r.
Arguments raised {Weights OptState} r.
Arguments epoch_loop {Weights OptState} train_one_epoch evaluate rank cfg
  save_path es s fs.
Arguments main {Weights OptState} init_model init_optimizer train_one_epoch
  evaluate rank cfg save_path fs.

End Train.

(** A small concrete run: integer weights and optimizer state, a training
    epoch that adds the batch size to the weights, an evaluation whose
    change-class IoU is the weights themselves. *)
Module ToyRun.

Definition init_model (cfg : Config) : Z := 0.

Definition init_optimizer (cfg : Config) (w : Z) : Z := 0.

Definition train_one_epoch (cfg : Config) (dl : Train.DataLoader)
    (epoch w o : Z) : Z * Z :=
  (w + Train.dl_batch_size dl, o + 1).

Definition evaluate (w : Z) (dl : Train.DataLoader) (cfg : Config)
    (multiplier : option Z) : result (ndarray Q * Q) :=
  Ok (Array [90%Q; inject_Z w], 95%Q).

Definition state0 : Train.TrainingState Z Z :=
  Train.Build_TrainingState 3 1 0 (5 # 2) 80.

Definition main := Train.main init_model init_optimizer train_one_epoch
  evaluate.

(** The files left by a run stopped after epoch 0 in state [state0], and a
    save directory whose [latest.pth] is not a pickle. *)
Definition files0 : gmap string (Train.blob Z Z) :=
  <["out/latest.pth" := Train.Pickled (Train.checkpoint_of state0)]> ∅.

Definition files_corrupt : gmap string (Train.blob Z Z) :=
  <["out/latest.pth" := Train.Unreadable [80; 75]]> ∅.

(** Training that only works at batch size 8. *)
Definition train_only_8 (cfg : Config) (dl : Train.DataLoader)
    (epoch w o : Z) : Z * Z :=
  if decide (Train.dl_batch_size dl = 2 * 4)
  then train_one_epoch cfg dl epoch w o
  else (0, 0).

End ToyRun.

(* ===================================================================== *)
(** ** Further parts of [main] and instances *)
(* ===================================================================== *)

(** The optimizer's parameter groups as [main] creates them. *)
Module Optimizer.

(** Lines 115-117 and 141: the backbone group starts at [cfg['lr']], the
    head group at [cfg['lr'] * cfg['lr_multi']], and [iters] at [0]. *)
Definition initial_state {Params : Type} (cfg : Config) (p : Params)
    : Schedule.loop_state Params :=
  {| Schedule.params := p;
     Schedule.lr0 := Q2R (cfg_lr cfg);
     Schedule.lr1 := (Q2R (cfg_lr cfg) * Q2R (cfg_lr_multi cfg))%R;
     Schedule.iters := 0 |}.

End Optimizer.

(** The progress line of the training loop. *)
Module Logging.

(** Line 192: [max(2, len(trainloader) // 8)]. *)
Definition log_interval (len_trainloader : Z) : Z :=
  Z.max 2 (len_trainloader / 8).

(** Line 192: [(i % interval == 0) and (rank == 0)]; [%] raises on a zero
    modulus. *)
Definition logs_step (rank len_trainloader i : Z) : result bool :=
  let interval := log_interval len_trainloader in
  if decide (interval = 0) then Raise ZeroDivisionError
  else Ok ((i mod interval =? 0) && (rank =? 0)).

End Logging.

(** Quantities in which the facts about whole runs are stated. *)
Module Resume.

(** The state a run ends in: that of its last completed epoch, or the one
    it started from. *)
Definition last_state {Weights OptState : Type}
    (s : Train.TrainingState Weights OptState)
    (r : Train.run Weights OptState) : Train.TrainingState Weights OptState :=
  default s (last (Train.trajectory r)).

(** [best.pth], when it holds a dictionary, carries the two trackers of
    the state [s]. *)
Definition best_agrees {Weights OptState : Type} (save_path : string)
    (fs : gmap string (Train.blob Weights OptState))
    (s : Train.TrainingState Weights OptState) : Prop :=
  forall d, fs !! path_join save_path "best.pth" = Some (Train.Pickled d) ->
    Train.ck_previous_best_iou d = Some (Train.previous_best_iou s) /\
    Train.ck_previous_best_acc d = Some (Train.previous_best_acc s).

End Resume.

(** Further instances on which the definitions run. *)
Module ToyMore.

(** Two workers with one 8x8 batch each, large enough for the multiplier
    14: rank 0 gets 16 pixels of 64 right, rank 1 all of them. *)
Definition wide0 : list (Evaluation.batch Toy.tensor) :=
  [Evaluation.Build_batch (Toy.image 8 8 (replicate 64 1))
     (Toy.image 8 8 (replicate 64 0)) (replicate 16 1 ++ replicate 48 0)].

Definition wide1 : list (Evaluation.batch Toy.tensor) :=
  [Evaluation.Build_batch (Toy.image 8 8 (replicate 64 0))
     (Toy.image 8 8 (replicate 64 0)) (replicate 64 0)].

Definition wide_group : list (list (Evaluation.batch Toy.tensor)) :=
  [wide0; wide1].

(** The same two batches on a single worker, in the other order. *)
Definition wide_one_worker : list (list (Evaluation.batch Toy.tensor)) :=
  [wide1 ++ wide0].

(** A group whose second rank has no batch. *)
Definition short_peer : list (list (Evaluation.batch Toy.tensor)) :=
  [wide0; []].

(** An optimizer step that counts the steps taken. *)
Definition count_steps (p : Z) (lr0 lr1 : R) (epoch i : Z) : Z := p + 1.

(** A configuration whose run is already complete in [ToyRun.state0]. *)
Definition cfg_one_epoch : Config :=
  {| cfg_batch_size := 4; cfg_epochs := 1; cfg_lr := 1 # 100;
     cfg_lr_multi := 10; cfg_nclass := 2; cfg_model := "dpt";
     cfg_backbone := "dinov2_small"; cfg_dataset := "levir";
     cfg_crop_size := 256 |}.

(** An evaluation whose change-class IoU falls from epoch to epoch. *)
Definition evaluate_falling (w : Z) (dl : Train.DataLoader) (cfg : Config)
    (multiplier : option Z) : result (ndarray Q * Q) :=
  Ok (Array [90%Q; inject_Z (100 - w)], 95%Q).

(** An evaluation that returns a single class. *)
Definition evaluate_one_class (w : Z) (dl : Train.DataLoader) (cfg : Config)
    (multiplier : option Z) : result (ndarray Q * Q) :=
  Ok (Array [90%Q], 95%Q).

End ToyMore.

(* ===================================================================== *)
(** * Facts *)
(* ===================================================================== *)

(** ** Arithmetic of [Py] *)

Lemma int_floor (q : Q) : (0 <= q)%Q -> Py.int q = Qfloor q.
Proof.
  destruct q as [n d]. unfold Py.int, Qfloor, Qle. simpl. intros H.
  apply Z.quot_div_nonneg; lia.
Qed.

Lemma half_up_eq (d : Z) (p : positive) :
  (Qred (Qred (inject_Z d / inject_Z (Zpos p)) + (1 # 2))
   == (2 * d + Zpos p) # (2 * p))%Q.
Proof.
  rewrite !Qred_correct. rewrite <- Qmake_Qdiv.
  unfold Qeq, Qplus. simpl. lia.
Qed.

Lemma max_spec (a b : Q) :
  (a <= Py.max a b)%Q /\ (b <= Py.max a b)%Q /\
  (Py.max a b = a \/ Py.max a b = b).
Proof.
  unfold Py.max. destruct (Qle_bool b a) eqn:E.
  - apply Qle_bool_iff in E. split; [apply Qle_refl|]. split; [exact E|]. by left.
  - assert (~ (b <= a)%Q) as Hn.
    { intros H. apply Qle_bool_iff in H. congruence. }
    apply Qnot_le_lt in Hn. split; [by apply Qlt_le_weak|].
    split; [apply Qle_refl|]. by right.
Qed.

Lemma ge_iff (a b : Q) : Py.ge a b = true <-> (b <= a)%Q.
Proof. apply Qle_bool_iff. Qed.

Lemma string_app_assoc (a b c : string) : a +:+ b +:+ c = (a +:+ b) +:+ c.
Proof.
  induction a as [|x a IH]; [reflexivity|].
  change (String x (a +:+ b +:+ c) = String x ((a +:+ b) +:+ c)).
  f_equal. exact IH.
Qed.

Lemma path_join_prefix (dir : string) :
  exists pre, forall name, path_join dir name = pre +:+ name.
Proof.
  unfold path_join. destruct (decide (dir = EmptyString)).
  - exists EmptyString. reflexivity.
  - destruct (ends_with_sep dir).
    + exists dir. reflexivity.
    + exists (dir +:+ "/"). intros name. apply string_app_assoc.
Qed.

Lemma latest_ne_best (dir : string) :
  path_join dir "latest.pth" <> path_join dir "best.pth".
Proof.
  destruct (path_join_prefix dir) as [pre Hpre]. rewrite !Hpre.
  intros H. apply String.app_inj in H. discriminate.
Qed.

(** Array addition is a commutative monoid with unit [Scalar 0]. *)

#[local] Notation "x ⊕ y" := (broadcast Z.add x y)
  (at level 50, left associativity).

Lemma nd_add_comm (x y : ndarray Z) : x ⊕ y = y ⊕ x.
Proof.
  destruct x as [a|l], y as [b|l']; simpl; f_equal.
  - lia.
  - apply map_ext; intros; lia.
  - apply map_ext; intros; lia.
  - apply list_eq; intros i. rewrite !lookup_zip_with.
    destruct (l !! i), (l' !! i); simpl; f_equal; lia.
Qed.

Lemma nd_add_assoc (x y z : ndarray Z) : x ⊕ (y ⊕ z) = x ⊕ y ⊕ z.
Proof.
  destruct x as [a|l], y as [b|l'], z as [c|l'']; simpl; f_equal;
    try lia; apply list_eq; intros i;
    rewrite ?lookup_zip_with, ?list_lookup_fmap, ?lookup_zip_with,
      ?list_lookup_fmap;
    repeat match goal with |- context [?l !! i] => destruct (l !! i) end;
    simpl; f_equal; lia.
Qed.

Lemma nd_add_0_l (x : ndarray Z) : Scalar 0 ⊕ x = x.
Proof. destruct x as [a|l]; simpl; f_equal. apply map_id. Qed.

Lemma nd_add_0_r (x : ndarray Z) : x ⊕ Scalar 0 = x.
Proof. rewrite nd_add_comm. apply nd_add_0_l. Qed.

Lemma nd_add_swap (a b c d : ndarray Z) :
  (a ⊕ b) ⊕ (c ⊕ d) = (a ⊕ c) ⊕ (b ⊕ d).
Proof.
  rewrite <- !nd_add_assoc. f_equal.
  rewrite !nd_add_assoc. f_equal. apply nd_add_comm.
Qed.

(** ** Resizing *)

Module ResizeFacts.
Import Evaluation.

Lemma resize_dim_ok (d m : Z) : m <> 0 -> exists r, resize_dim d m = Ok r.
Proof.
  intros Hm. unfold resize_dim, truediv.
  assert (Qeq_bool (inject_Z m) 0 = false) as ->.
  { apply not_true_is_false. intros H%Qeq_bool_iff.
    unfold Qeq in H. simpl in H. lia. }
  simpl. eauto.
Qed.

Lemma resize_dim_floor (d m : Z) :
  0 <= d -> 0 < m -> resize_dim d m = Ok ((2 * d + m) / (2 * m) * m).
Proof.
  intros Hd Hm. destruct m as [|p|p]; try lia.
  unfold resize_dim, truediv.
  replace (Qeq_bool (inject_Z (Z.pos p)) 0) with false by reflexivity.
  simpl. unfold mret, result_ret. f_equal. f_equal.
  unfold fadd. rewrite int_floor.
  - rewrite (Qfloor_comp _ _ (half_up_eq d p)). reflexivity.
  - rewrite half_up_eq. unfold Qle. simpl. lia.
Qed.

Example resize_dim_examples :
  resize_dim 256 14 = Ok 252 /\ resize_dim 21 14 = Ok 28 /\
  resize_dim 20 14 = Ok 14 /\ resize_dim 28 14 = Ok 28 /\
  resize_dim 3 0 = Raise ZeroDivisionError.
Proof. repeat split. Qed.

Lemma floor_is_nearest (d m : Z) :
  0 < m -> nearest_multiple d m ((2 * d + m) / (2 * m) * m).
Proof.
  intros Hm. split.
  - apply Z.divide_factor_r.
  - pose proof (Z.mul_div_le (2 * d + m) (2 * m) ltac:(lia)).
    pose proof (Z.mul_succ_div_gt (2 * d + m) (2 * m) ltac:(lia)).
    lia.
Qed.

(** C2, as stated, fails: a height of 15 pixels with the multiplier 14 is
    resized to 14, which is below 15, so the resized dimension is not the
    smallest multiple at or above the original one. *)
Lemma resize_dim_15_14_rounds_down :
  resize_dim 15 14 = Ok 14 /\ ~ rounds_up_to 15 14 14.
Proof.
  split; [reflexivity|]. intros (_ & H & _). lia.
Qed.

Lemma resize_dim_fits (d m : Z) :
  0 < m -> m <= 2 * d -> m <= (2 * d + m) / (2 * m) * m.
Proof.
  intros Hm Hd.
  assert (1 <= (2 * d + m) / (2 * m)).
  { apply Z.div_le_lower_bound; lia. }
  nia.
Qed.

Lemma resize_dim_small (d m : Z) :
  0 <= d -> 2 * d < m -> (2 * d + m) / (2 * m) * m = 0.
Proof. intros Hd Hm. rewrite Z.div_small by lia. reflexivity. Qed.

Section Predict.
Context {Tensor : Type}.
Variable shape : Tensor -> Z * Z.
Variable interpolate : Tensor -> Z * Z -> interp_mode -> bool -> Tensor.
Variable model : Tensor -> Tensor -> Tensor.
Variable argmax : Tensor -> list Z.

Lemma F_interpolate_ok (t : Tensor) (h w : Z) (mode : interp_mode)
    (align_corners : bool) :
  0 < h -> 0 < w ->
  F_interpolate interpolate t (h, w) mode align_corners
  = Ok (interpolate t (h, w) mode align_corners).
Proof.
  intros Hh Hw. unfold F_interpolate. simpl.
  rewrite (proj2 (Z.ltb_lt 0 h) Hh), (proj2 (Z.ltb_lt 0 w) Hw). reflexivity.
Qed.

Lemma F_interpolate_empty (t : Tensor) (h w : Z) (mode : interp_mode)
    (align_corners : bool) :
  h = 0 \/ w = 0 ->
  F_interpolate interpolate t (h, w) mode align_corners = Raise RuntimeError.
Proof.
  intros [-> | ->]; unfold F_interpolate; simpl; [reflexivity|].
  rewrite andb_false_r. reflexivity.
Qed.

(** With images of at least half the multiplier in both directions the
    three resizes are accepted. *)
Lemma predict_fits (m ori_h ori_w : Z) (imgA imgB : Tensor) :
  0 < m -> shape imgA = (ori_h, ori_w) ->
  m <= 2 * ori_h -> m <= 2 * ori_w ->
  predict shape interpolate model argmax (Some m) imgA imgB
  = Ok (argmax
          (interpolate
             (model
                (interpolate imgA
                   ((2 * ori_h + m) / (2 * m) * m,
                    (2 * ori_w + m) / (2 * m) * m) Bilinear true)
                (interpolate imgB
                   ((2 * ori_h + m) / (2 * m) * m,
                    (2 * ori_w + m) / (2 * m) * m) Bilinear true))
             (ori_h, ori_w) Bilinear true)).
Proof.
  intros Hm Hshape Hh Hw. unfold predict. rewrite Hshape.
  rewrite !resize_dim_floor by lia. simpl.
  pose proof (resize_dim_fits ori_h m Hm Hh).
  pose proof (resize_dim_fits ori_w m Hm Hw).
  rewrite !F_interpolate_ok by lia. simpl.
  rewrite F_interpolate_ok by lia. reflexivity.
Qed.

(** With an image below half the multiplier in one direction the first
    resize is refused. *)
Lemma predict_too_small (m ori_h ori_w : Z) (imgA imgB : Tensor) :
  0 < m -> shape imgA = (ori_h, ori_w) -> 0 <= ori_h -> 0 <= ori_w ->
  2 * ori_h < m \/ 2 * ori_w < m ->
  predict shape interpolate model argmax (Some m) imgA imgB
  = Raise RuntimeError.
Proof.
  intros Hm Hshape Hh Hw Hsmall. unfold predict. rewrite Hshape.
  rewrite !resize_dim_floor by lia. simpl.
  rewrite (F_interpolate_empty imgA); [reflexivity|].
  destruct Hsmall; [left|right]; by apply resize_dim_small.
Qed.

End Predict.

(** C2, amended: with a multiplier [m > 0] set, [evaluate] computes for
    the height and the width the multiple of [m] nearest to it
    ([int(dim / m + 0.5) * m], halves going up).  When both dimensions are
    at least half the multiplier it resizes both images to these sizes,
    runs the model on them, and resizes the prediction back to the
    original height and width, all three resizes bilinear with aligned
    corners.  When one dimension is below half the multiplier its nearest
    multiple is 0 and the first resize raises [RuntimeError]. *)
Theorem predict_resizes_to_nearest_multiple
    {Tensor : Type} (shape : Tensor -> Z * Z)
    (interpolate : Tensor -> Z * Z -> interp_mode -> bool -> Tensor)
    (model : Tensor -> Tensor -> Tensor) (argmax : Tensor -> list Z)
    (m ori_h ori_w : Z) (imgA imgB : Tensor) :
  0 < m -> shape imgA = (ori_h, ori_w) -> 0 <= ori_h -> 0 <= ori_w ->
  exists new_h new_w,
    resize_dim ori_h m = Ok new_h /\ nearest_multiple ori_h m new_h /\
    resize_dim ori_w m = Ok new_w /\ nearest_multiple ori_w m new_w /\
    (m <= 2 * ori_h -> m <= 2 * ori_w ->
     m <= new_h /\ m <= new_w /\
     predict shape interpolate model argmax (Some m) imgA imgB
     = Ok (argmax
             (interpolate
                (model (interpolate imgA (new_h, new_w) Bilinear true)
                       (interpolate imgB (new_h, new_w) Bilinear true))
                (ori_h, ori_w) Bilinear true))) /\
    (2 * ori_h < m \/ 2 * ori_w < m ->
     (new_h = 0 \/ new_w = 0) /\
     predict shape interpolate model argmax (Some m) imgA imgB
     = Raise RuntimeError).
Proof.
  intros Hm Hshape Hh Hw.
  exists ((2 * ori_h + m) / (2 * m) * m), ((2 * ori_w + m) / (2 * m) * m).
  split; [by apply resize_dim_floor|].
  split; [by apply floor_is_nearest|].
  split; [by apply resize_dim_floor|].
  split; [by apply floor_is_nearest|].
  split.
  - intros Hfh Hfw.
    split; [by apply resize_dim_fits|]. split; [by apply resize_dim_fits|].
    by apply (predict_fits shape interpolate model argmax m ori_h ori_w).
  - intros Hsmall. split.
    + destruct Hsmall; [left|right]; by apply resize_dim_small.
    + by apply (predict_too_small shape interpolate model argmax m ori_h
                  ori_w).
Qed.

Lemma predict_resizes_to_nearest_multiple_witness :
  exists new_h new_w,
    resize_dim 15 14 = Ok new_h /\ nearest_multiple 15 14 new_h /\
    resize_dim 22 14 = Ok new_w /\ nearest_multiple 22 14 new_w /\
    (14 <= 2 * 15 -> 14 <= 2 * 22 ->
     14 <= new_h /\ 14 <= new_w /\
     predict Toy.shape Toy.interpolate Toy.model Toy.argmax (Some 14)
       (Toy.image 15 22 [0; 1]) (Toy.image 15 22 [1; 1])
     = Ok (Toy.argmax
             (Toy.interpolate
                (Toy.model
                   (Toy.interpolate (Toy.image 15 22 [0; 1]) (new_h, new_w)
                      Bilinear true)
                   (Toy.interpolate (Toy.image 15 22 [1; 1]) (new_h, new_w)
                      Bilinear true))
                (15, 22) Bilinear true))) /\
    (2 * 15 < 14 \/ 2 * 22 < 14 ->
     (new_h = 0 \/ new_w = 0) /\
     predict Toy.shape Toy.interpolate Toy.model Toy.argmax (Some 14)
       (Toy.image 15 22 [0; 1]) (Toy.image 15 22 [1; 1])
     = Raise RuntimeError).
Proof.
  apply (predict_resizes_to_nearest_multiple Toy.shape Toy.interpolate
           Toy.model Toy.argmax 14 15 22); [lia | reflexivity | lia | lia].
Defined.

(** A 15x22 pair of images with the multiplier 14 is resized to 14x28 and
    the prediction back to 15x22; a 6x22 pair is refused. *)
Example predict_examples :
  predict Toy.shape Toy.interpolate Toy.model Toy.argmax (Some 14)
    (Toy.image 15 22 [0; 1]) (Toy.image 15 22 [1; 1]) = Ok [0; 1] /\
  resize_dim 15 14 = Ok 14 /\ resize_dim 22 14 = Ok 28 /\
  resize_dim 6 14 = Ok 0 /\
  predict Toy.shape Toy.interpolate Toy.model Toy.argmax (Some 14)
    (Toy.image 6 22 [0; 1]) (Toy.image 6 22 [1; 1]) = Raise RuntimeError.
Proof. repeat split. Qed.

End ResizeFacts.

(** ** The evaluation loop and the collective reduction *)

Module EvalFacts.
Import Evaluation.

Lemma foldl_nd_add (field : counts -> list Z) (cs : list counts)
    (acc : ndarray Z) :
  foldl (fun acc c => acc ⊕ Array (field c)) acc cs
  = acc ⊕ local_sum field cs.
Proof.
  unfold local_sum. revert acc.
  induction cs as [|c cs IH]; intros acc; cbn [foldl].
  - symmetry. apply nd_add_0_r.
  - rewrite IH. rewrite (IH (Scalar 0 ⊕ _)).
    rewrite nd_add_0_l. symmetry. apply nd_add_assoc.
Qed.

Lemma local_sum_cons (field : counts -> list Z) (c : counts)
    (cs : list counts) :
  local_sum field (c :: cs) = Array (field c) ⊕ local_sum field cs.
Proof.
  unfold local_sum at 1. cbn [foldl]. rewrite foldl_nd_add.
  rewrite nd_add_0_l. reflexivity.
Qed.

Lemma all_reduce_split (field : counts -> list Z) (css : list (list counts)) :
  Forall (fun cs => (1 <= length cs)%nat) css ->
  all_reduce (local_sum field <$> css)
  = all_reduce ((fun s => Array (field (hd no_counts s))) <$> css)
    ⊕ all_reduce (local_sum field <$> (tail <$> css)).
Proof.
  induction 1 as [|cs css Hcs _ IH]; [reflexivity|].
  destruct cs as [|c cs]; [simpl in Hcs; lia|].
  cbn [fmap list_fmap all_reduce foldr hd tail].
  unfold all_reduce in IH. rewrite IH, local_sum_cons. apply nd_add_swap.
Qed.

Lemma all_reduce_nothing (field : counts -> list Z)
    (css : list (list counts)) :
  Forall (fun cs => length cs = 0%nat) css ->
  all_reduce (local_sum field <$> css) = Scalar 0.
Proof.
  induction 1 as [|cs css Hcs _ IH]; [reflexivity|].
  destruct cs; [|discriminate]. cbn [fmap list_fmap all_reduce foldr].
  unfold all_reduce in IH. rewrite IH. reflexivity.
Qed.

(** Summing round by round across the group, or shard by shard and then
    across the group, gives the same array. *)
Lemma rounds_exchange (field : counts -> list Z) (n : nat) :
  forall css : list (list counts),
  Forall (fun cs => length cs = n) css ->
  rounds field n css = all_reduce (local_sum field <$> css).
Proof.
  induction n as [|n IH]; intros css Hlen.
  - symmetry. apply all_reduce_nothing, Hlen.
  - simpl. rewrite IH.
    + symmetry. apply all_reduce_split.
      eapply Forall_impl; [exact Hlen|]. simpl. intros; lia.
    + apply Forall_fmap. eapply Forall_impl; [exact Hlen|].
      intros [|? ?]; simpl; intros; [discriminate|lia].
Qed.

Lemma local_sum_app (field : counts -> list Z) (cs cs' : list counts) :
  local_sum field (cs ++ cs') = local_sum field cs ⊕ local_sum field cs'.
Proof.
  unfold local_sum at 1. rewrite foldl_app.
  fold (local_sum field cs). apply foldl_nd_add.
Qed.

Lemma all_reduce_concat (field : counts -> list Z)
    (css : list (list counts)) :
  all_reduce (local_sum field <$> css) = local_sum field (concat css).
Proof.
  induction css as [|cs css IH]; [reflexivity|].
  cbn [fmap list_fmap all_reduce foldr concat].
  unfold all_reduce in IH. rewrite IH, local_sum_app. reflexivity.
Qed.

(** Adding an array of [K] counts to per-class totals, class by class. *)
Lemma zip_with_totals (l : list Z) (f : nat -> Z) (K : nat) :
  length l = K ->
  zip_with Z.add l (f <$> seq 0 K)
  = (fun k => nth k l 0 + f k) <$> seq 0 K.
Proof.
  intros Hl. apply list_eq. intros i.
  rewrite lookup_zip_with, !list_lookup_fmap.
  destruct (decide (i < K)%nat) as [Hi|Hi].
  - rewrite lookup_seq_lt by exact Hi.
    destruct (lookup_lt_is_Some_2 l i ltac:(lia)) as [x Hx].
    rewrite Hx. simpl. rewrite (nth_lookup_Some _ _ 0 _ Hx). reflexivity.
  - rewrite lookup_seq_ge by lia.
    rewrite (lookup_ge_None_2 l i) by lia. reflexivity.
Qed.

Lemma class_totals_one (field : counts -> list Z) (K : nat) (c : counts) :
  length (field c) = K -> class_totals field K [c] = field c.
Proof.
  intros Hl. unfold class_totals, class_total. apply list_eq. intros i.
  rewrite list_lookup_fmap.
  destruct (decide (i < K)%nat) as [Hi|Hi].
  - rewrite lookup_seq_lt by exact Hi.
    destruct (lookup_lt_is_Some_2 (field c) i ltac:(lia)) as [x Hx].
    rewrite Hx. simpl. rewrite (nth_lookup_Some _ _ 0 _ Hx). f_equal. lia.
  - rewrite lookup_seq_ge by lia.
    rewrite (lookup_ge_None_2 (field c) i) by lia. reflexivity.
Qed.

(** The running sum of arrays of [K] counts is the array of the [K]
    per-class totals. *)
Lemma local_sum_class_totals (field : counts -> list Z) (K : nat)
    (cs : list counts) :
  cs <> [] -> Forall (fun c => length (field c) = K) cs ->
  local_sum field cs = Array (class_totals field K cs).
Proof.
  induction cs as [|c cs IH]; [done|]. intros _ Hall.
  apply Forall_cons in Hall as [Hc Hall]. rewrite local_sum_cons.
  destruct cs as [|c' cs].
  - unfold local_sum at 1. cbn [foldl]. rewrite nd_add_0_r.
    by rewrite class_totals_one.
  - rewrite IH by done. cbn [broadcast]. f_equal.
    unfold class_totals. rewrite zip_with_totals by exact Hc. reflexivity.
Qed.

Lemma class_totals_lookup (field : counts -> list Z) (K k : nat)
    (cs : list counts) :
  (k < K)%nat ->
  class_totals field K cs !! k = Some (class_total field k cs).
Proof.
  intros Hk. unfold class_totals.
  rewrite list_lookup_fmap, lookup_seq_lt by exact Hk. reflexivity.
Qed.

(** Line 75, class by class. *)
Lemma iou_of_getitem (isum usum : list Z) (k : nat) (i u : Z) :
  isum !! k = Some i -> usum !! k = Some u ->
  getitem (iou_of (Array isum) (Array usum)) k
  = Ok (fmul (fdiv (inject_Z i) (fadd (inject_Z u) (1 # 10000000000))) 100).
Proof.
  intros Hi Hu. unfold iou_of, astype_float, broadcast, getitem.
  rewrite list_lookup_fmap, lookup_zip_with, !list_lookup_fmap, Hi, Hu.
  reflexivity.
Qed.

Lemma iou_value (i u : Z) :
  (fmul (fdiv (inject_Z i) (fadd (inject_Z u) (1 # 10000000000))) 100
   == inject_Z i / (inject_Z u + (1 # 10000000000)) * 100)%Q.
Proof. unfold fmul, fdiv, fadd. rewrite !Qred_correct. reflexivity. Qed.

Section Loop.
Context {Tensor : Type}.
Variable shape : Tensor -> Z * Z.
Variable interpolate : Tensor -> Z * Z -> interp_mode -> bool -> Tensor.
Variable model : Tensor -> Tensor -> Tensor.
Variable argmax : Tensor -> list Z.
Variable intersectionAndUnion :
  list Z -> list Z -> Z -> Z -> list Z * list Z * list Z.
Variable cfg : Config.
Variable multiplier : option Z.

#[local] Abbreviation count_batch := (count_batch shape interpolate model
  argmax intersectionAndUnion cfg multiplier).
#[local] Abbreviation eval_loop := (eval_loop shape interpolate model argmax
  intersectionAndUnion cfg multiplier).
#[local] Abbreviation evaluate := (evaluate shape interpolate model argmax
  intersectionAndUnion).
#[local] Abbreviation accumulate_local := (accumulate_local shape interpolate
  model argmax intersectionAndUnion cfg multiplier).
#[local] Abbreviation reduce_at_end := (reduce_at_end shape interpolate model
  argmax intersectionAndUnion cfg multiplier).
#[local] Abbreviation pixel_totals := (pixel_totals shape interpolate model
  argmax intersectionAndUnion cfg multiplier).
#[local] Abbreviation counts_of := (counts_of shape interpolate model argmax
  intersectionAndUnion cfg multiplier).
#[local] Abbreviation shard_counts := (shard_counts shape interpolate model
  argmax intersectionAndUnion cfg multiplier).
#[local] Abbreviation group_counts := (group_counts shape interpolate model
  argmax intersectionAndUnion cfg multiplier).
#[local] Abbreviation fits := (batch_fits shape multiplier).

Lemma count_batch_counts_of (b : batch Tensor) (c : counts) :
  count_batch b = Ok c -> counts_of b = c.
Proof. unfold Evaluation.counts_of. by intros ->. Qed.

(** A batch whose images fit the multiplier is counted. *)
Lemma count_batch_total (b : batch Tensor) :
  fits b -> count_batch b = Ok (counts_of b).
Proof.
  intros Hfit. unfold Evaluation.counts_of.
  cut (exists c, count_batch b = Ok c); [intros [c ->]; reflexivity|].
  unfold Evaluation.count_batch.
  assert (exists pred, predict shape interpolate model argmax multiplier
                         (imgA b) (imgB b) = Ok pred) as [pred ->].
  { unfold batch_fits in Hfit. destruct multiplier as [m|].
    - destruct (shape (imgA b)) as [h w] eqn:Hshape.
      destruct Hfit as (Hm & Hh & Hw). simpl in Hh, Hw.
      rewrite (ResizeFacts.predict_fits shape interpolate model argmax m h w)
        by done.
      eauto.
    - simpl. eauto. }
  simpl. destruct intersectionAndUnion as [[i u] t]. simpl. eauto.
Qed.

Lemma mapM_count_batch (shard : list (batch Tensor)) :
  Forall fits shard -> mapM count_batch shard = Ok (shard_counts shard).
Proof.
  induction 1 as [|b shard Hb _ IH]; [reflexivity|].
  cbn [mapM]. rewrite count_batch_total by exact Hb.
  simpl. rewrite IH. reflexivity.
Qed.

Lemma group_counts_tail (group : list (list (batch Tensor))) :
  group_counts (tail <$> group) = tail <$> group_counts group.
Proof.
  induction group as [|[|b s] group IH]; simpl; [done| |]; f_equal; exact IH.
Qed.

Lemma group_counts_concat (group : list (list (batch Tensor))) :
  concat (group_counts group) = shard_counts (concat group).
Proof.
  unfold Evaluation.group_counts, Evaluation.shard_counts.
  induction group as [|shard group IH]; [reflexivity|].
  simpl. rewrite fmap_app. f_equal. exact IH.
Qed.

Lemma fits_tail (group : list (list (batch Tensor))) :
  Forall (Forall fits) group -> Forall (Forall fits) (tail <$> group).
Proof.
  intros H. apply Forall_fmap. eapply Forall_impl; [exact H|].
  intros [|b shard] Hs; simpl; [constructor|].
  by apply Forall_cons in Hs as [_ Hs].
Qed.

(** When every shard still has a batch, every rank joins the round. *)
Lemma heads_join (group : list (list (batch Tensor))) :
  Forall (Forall fits) group ->
  Forall (fun shard => (1 <= length shard)%nat) group ->
  mapM (fun shard => b' ← head shard; to_option (count_batch b')) group
  = Some ((fun s => hd no_counts s) <$> group_counts group).
Proof.
  intros Hfit. induction 1 as [|shard group Hs _ IH]; [reflexivity|].
  apply Forall_cons in Hfit as [Hfs Hfit].
  destruct shard as [|b shard]; [simpl in Hs; lia|].
  apply Forall_cons in Hfs as [Hb _].
  cbn [mapM]. simpl. rewrite count_batch_total by exact Hb. simpl.
  specialize (IH Hfit). simpl in IH. rewrite IH. reflexivity.
Qed.

(** The counts a round has reduced, when it was joined by every rank. *)
Lemma heads_joined (group : list (list (batch Tensor)))
    (peers : list counts) :
  mapM (fun shard => b' ← head shard; to_option (count_batch b')) group
  = Some peers ->
  peers = (fun s => hd no_counts s) <$> group_counts group.
Proof.
  revert peers. induction group as [|shard group IH]; intros peers.
  { simpl. by intros [= <-]. }
  cbn [mapM]. destruct shard as [|b shard]; [discriminate|]. simpl.
  destruct (count_batch b) as [c|] eqn:Hc; [|discriminate]. simpl.
  destruct (mapM _ group) as [ps|]; [|discriminate]. simpl.
  intros [= <-]. rewrite (count_batch_counts_of _ _ Hc).
  f_equal. by apply IH.
Qed.

(** The meters of a loop that ran to its end: the sums of the rounds for
    the two count arrays, the rank's own pixels for the other two. *)
Lemma eval_loop_returned (loader : list (batch Tensor)) :
  forall (group : list (list (batch Tensor))) (m m' : meters),
  eval_loop loader group m = Ok m' ->
  m' =
    {| intersection_meter :=
         {| AverageMeter.sum := AverageMeter.sum (intersection_meter m)
              ⊕ rounds intersection (length loader) (group_counts group) |};
       union_meter :=
         {| AverageMeter.sum := AverageMeter.sum (union_meter m)
              ⊕ rounds union (length loader) (group_counts group) |};
       correct_pixel :=
         {| AverageMeter.sum := AverageMeter.sum (correct_pixel m)
              ⊕ Scalar (foldr Z.add 0 (correct <$> shard_counts loader)) |};
       total_pixel :=
         {| AverageMeter.sum := AverageMeter.sum (total_pixel m)
              ⊕ Scalar (foldr Z.add 0 (numel <$> shard_counts loader)) |} |}.
Proof.
  induction loader as [|b loader IH]; intros group m m'.
  - simpl. intros [= <-]. rewrite !nd_add_0_r.
    destruct m as [[] [] [] []]. reflexivity.
  - simpl. destruct (count_batch b) as [c|] eqn:Hc; [|discriminate]. simpl.
    destruct (mapM _ group) as [peers|] eqn:Hpeers; [|discriminate]. simpl.
    intros Hloop. apply IH in Hloop. rewrite Hloop.
    rewrite (heads_joined _ _ Hpeers), (count_batch_counts_of _ _ Hc).
    unfold update_meters. simpl.
    rewrite group_counts_tail.
    rewrite <- !list_fmap_compose.
    f_equal; f_equal; rewrite <- ?nd_add_assoc; try reflexivity.
Qed.

(** The loop runs to its end when every batch fits and no peer has fewer
    batches than this rank. *)
Lemma eval_loop_returns (loader : list (batch Tensor)) :
  forall (group : list (list (batch Tensor))) (m : meters),
  Forall fits loader -> Forall (Forall fits) group ->
  Forall (fun shard => (length loader <= length shard)%nat) group ->
  exists m', eval_loop loader group m = Ok m'.
Proof.
  induction loader as [|b loader IH]; intros group m Hl Hg Hlen.
  - simpl. eauto.
  - apply Forall_cons in Hl as [Hb Hl].
    simpl. rewrite count_batch_total by exact Hb. simpl.
    rewrite heads_join; [|exact Hg|].
    2:{ eapply Forall_impl; [exact Hlen|]. simpl. intros; lia. }
    simpl. apply IH; [exact Hl|by apply fits_tail|].
    apply Forall_fmap. eapply Forall_impl; [exact Hlen|].
    intros [|? ?]; simpl; lia.
Qed.

Lemma eval_loop_sums (loader : list (batch Tensor))
    (group : list (list (batch Tensor))) (m : meters) :
  Forall fits loader -> Forall (Forall fits) group ->
  Forall (fun shard => (length loader <= length shard)%nat) group ->
  eval_loop loader group m = Ok
    {| intersection_meter :=
         {| AverageMeter.sum := AverageMeter.sum (intersection_meter m)
              ⊕ rounds intersection (length loader) (group_counts group) |};
       union_meter :=
         {| AverageMeter.sum := AverageMeter.sum (union_meter m)
              ⊕ rounds union (length loader) (group_counts group) |};
       correct_pixel :=
         {| AverageMeter.sum := AverageMeter.sum (correct_pixel m)
              ⊕ Scalar (foldr Z.add 0 (correct <$> shard_counts loader)) |};
       total_pixel :=
         {| AverageMeter.sum := AverageMeter.sum (total_pixel m)
              ⊕ Scalar (foldr Z.add 0 (numel <$> shard_counts loader)) |} |}.
Proof.
  intros Hl Hg Hlen.
  destruct (eval_loop_returns loader group m Hl Hg Hlen) as [m' Hm'].
  rewrite Hm'. f_equal. by apply eval_loop_returned.
Qed.

Lemma accumulate_local_eq (field : counts -> list Z)
    (shard : list (batch Tensor)) :
  Forall fits shard ->
  accumulate_local field shard = Ok (local_sum field (shard_counts shard)).
Proof.
  intros Hs. unfold Evaluation.accumulate_local.
  rewrite mapM_count_batch by exact Hs. reflexivity.
Qed.

Lemma reduce_at_end_eq (field : counts -> list Z)
    (group : list (list (batch Tensor))) :
  Forall (Forall fits) group ->
  reduce_at_end field group
  = Ok (all_reduce (local_sum field <$> group_counts group)).
Proof.
  intros Hg. unfold Evaluation.reduce_at_end.
  assert (mapM (accumulate_local field) group
          = Ok (local_sum field <$> group_counts group)) as ->; [|reflexivity].
  induction Hg as [|shard group Hs _ IH]; [reflexivity|].
  cbn [mapM]. rewrite accumulate_local_eq by exact Hs. simpl.
  simpl in IH. rewrite IH. reflexivity.
Qed.

Lemma pixel_totals_eq (loader : list (batch Tensor)) :
  Forall fits loader ->
  pixel_totals [loader]
  = Ok (foldr Z.add 0 (correct <$> shard_counts loader),
        foldr Z.add 0 (numel <$> shard_counts loader)).
Proof.
  intros Hl. unfold Evaluation.pixel_totals. simpl. rewrite app_nil_r.
  rewrite mapM_count_batch by exact Hl. reflexivity.
Qed.

Lemma group_counts_lengths (group : list (list (batch Tensor))) (n : nat) :
  Forall (fun shard => length shard = n) group ->
  Forall (fun cs : list counts => length cs = n) (group_counts group).
Proof.
  intros Hlen. unfold Evaluation.group_counts. apply Forall_fmap.
  eapply Forall_impl; [exact Hlen|]. intros shard Hs. simpl in *.
  unfold Evaluation.shard_counts. by rewrite length_fmap.
Qed.

(** The meters a rank holds when it leaves the loop, if every shard of the
    group has as many batches as its own. *)
Lemma eval_loop_final (group : list (list (batch Tensor)))
    (loader : list (batch Tensor)) (n : nat) :
  Forall (Forall fits) group ->
  loader ∈ group ->
  Forall (fun shard => length shard = n) group ->
  eval_loop loader group new_meters = Ok
    {| intersection_meter :=
         {| AverageMeter.sum :=
              all_reduce (local_sum intersection <$> group_counts group) |};
       union_meter :=
         {| AverageMeter.sum :=
              all_reduce (local_sum union <$> group_counts group) |};
       correct_pixel :=
         {| AverageMeter.sum :=
              Scalar (foldr Z.add 0 (correct <$> shard_counts loader)) |};
       total_pixel :=
         {| AverageMeter.sum :=
              Scalar (foldr Z.add 0 (numel <$> shard_counts loader)) |} |}.
Proof.
  intros Hg Hin Hlen.
  assert (length loader = n) as Hn.
  { rewrite Forall_forall in Hlen. by apply Hlen. }
  assert (Forall fits loader) as Hl.
  { rewrite Forall_forall in Hg. by apply Hg. }
  rewrite eval_loop_sums; [|exact Hl|exact Hg|].
  2:{ eapply Forall_impl; [exact Hlen|]. simpl. intros; lia. }
  cbn [new_meters intersection_meter union_meter correct_pixel total_pixel
       AverageMeter.new AverageMeter.sum].
  rewrite !nd_add_0_l, !rounds_exchange
    by (rewrite Hn; by apply group_counts_lengths).
  reflexivity.
Qed.

(** What [evaluate] returns on such a rank: the IoU of the counts of the
    whole group, the accuracy of its own shard. *)
Lemma evaluate_eq (group : list (list (batch Tensor)))
    (loader : list (batch Tensor)) (n : nat) :
  Forall (Forall fits) group ->
  loader ∈ group ->
  Forall (fun shard => length shard = n) group ->
  evaluate group loader cfg multiplier
  = (acc ← acc_of (Scalar (foldr Z.add 0 (correct <$> shard_counts loader)))
             (Scalar (foldr Z.add 0 (numel <$> shard_counts loader)));
     mret (iou_of (all_reduce (local_sum intersection <$> group_counts group))
                  (all_reduce (local_sum union <$> group_counts group)),
           acc)).
Proof.
  intros Hg Hin Hlen. unfold Evaluation.evaluate.
  rewrite (eval_loop_final group loader n Hg Hin Hlen). reflexivity.
Qed.

(** The IoU array a rank returns, whenever it returns, in a pass over
    shards of equal length. *)
Lemma evaluate_returned_iou (group : list (list (batch Tensor)))
    (loader : list (batch Tensor)) (n : nat) (iou_class : ndarray Q)
    (acc : Q) :
  loader ∈ group ->
  Forall (fun shard => length shard = n) group ->
  evaluate group loader cfg multiplier = Ok (iou_class, acc) ->
  iou_class = iou_of (rounds intersection n (group_counts group))
                     (rounds union n (group_counts group)).
Proof.
  intros Hin Hlen. unfold Evaluation.evaluate.
  assert (length loader = n) as Hn.
  { rewrite Forall_forall in Hlen. by apply Hlen. }
  destruct (eval_loop loader group new_meters) as [m|] eqn:Hloop;
    [|discriminate].
  apply eval_loop_returned in Hloop. simpl.
  destruct (acc_of _ _) as [a|]; [|discriminate]. simpl.
  intros [= <- _]. rewrite Hloop.
  cbn [new_meters intersection_meter union_meter AverageMeter.new
       AverageMeter.sum].
  rewrite !nd_add_0_l, Hn. reflexivity.
Qed.

(** C8: in a pass where every rank of the group has a shard of the same
    number of batches, all of a size the resize accepts, and the counting
    function returns one count per class, the loop ends on each rank with
    intersection and union meters that are: the arrays obtained by
    accumulating over each whole shard and all-reducing once at the end
    ([reduce_at_end]); class by class, the plain sums of the counts of
    every batch of every shard.  The array [evaluate] returns holds for
    each class [intersection / (union + 1e-10) * 100] of these two sums.
    [evaluate] returns unless the rank's own shard has no pixel, in which
    case the accuracy division raises. *)
Theorem evaluate_iou_reduces_whole_group
    (group : list (list (batch Tensor))) (loader : list (batch Tensor))
    (n : nat) :
  loader ∈ group ->
  Forall (fun shard => length shard = n) group ->
  Forall (Forall (batch_fits shape multiplier)) group ->
  (forall output target,
     let r := intersectionAndUnion output target (cfg_nclass cfg) 255 in
     length r.1.1 = Z.to_nat (cfg_nclass cfg) /\
     length r.1.2 = Z.to_nat (cfg_nclass cfg)) ->
  exists all m c t,
    mapM count_batch (concat group) = Ok all /\
    eval_loop loader group new_meters = Ok m /\
    reduce_at_end intersection group
    = Ok (AverageMeter.sum (intersection_meter m)) /\
    reduce_at_end union group = Ok (AverageMeter.sum (union_meter m)) /\
    (n <> 0%nat ->
     AverageMeter.sum (intersection_meter m)
     = Array (class_totals intersection (Z.to_nat (cfg_nclass cfg)) all) /\
     AverageMeter.sum (union_meter m)
     = Array (class_totals union (Z.to_nat (cfg_nclass cfg)) all)) /\
    pixel_totals [loader] = Ok (c, t) /\
    (t <> 0 -> exists iou_class acc,
       evaluate group loader cfg multiplier = Ok (iou_class, acc) /\
       forall k, (k < Z.to_nat (cfg_nclass cfg))%nat -> exists q,
         getitem iou_class k = Ok q /\
         (q == inject_Z (class_total intersection k all)
               / (inject_Z (class_total union k all) + (1 # 10000000000))
               * 100)%Q) /\
    (t = 0 ->
       evaluate group loader cfg multiplier = Raise ZeroDivisionError).
Proof.
  intros Hin Hlen Hg HK.
  assert (Forall fits loader) as Hl.
  { rewrite Forall_forall in Hg. by apply Hg. }
  assert (length loader = n) as Hn.
  { rewrite Forall_forall in Hlen. by apply Hlen. }
  assert (Forall fits (concat group)) as Hall by (by apply Forall_concat).
  set (K := Z.to_nat (cfg_nclass cfg)) in *.
  set (all := shard_counts (concat group)).
  assert (Forall (fun c => length (intersection c) = K /\
                           length (union c) = K) all) as Hlens.
  { unfold all, Evaluation.shard_counts. apply Forall_fmap.
    eapply Forall_impl; [exact Hall|]. intros b Hb. simpl.
    unfold Evaluation.counts_of, Evaluation.count_batch.
    destruct (predict _ _ _ _ _ _ _) as [pred|] eqn:Hp.
    - simpl. specialize (HK pred (mask b)). simpl in HK.
      destruct intersectionAndUnion as [[i u] t]. exact HK.
    - apply count_batch_total in Hb.
      unfold Evaluation.count_batch in Hb. rewrite Hp in Hb.
      discriminate Hb. }
  assert (n <> 0%nat -> forall field,
            (forall c, c ∈ all -> length (field c) = K) ->
            all_reduce (local_sum field <$> group_counts group)
            = Array (class_totals field K all)) as Hsum.
  { intros Hn0 field Hf.
    rewrite all_reduce_concat, group_counts_concat. fold all.
    apply local_sum_class_totals; [|by apply Forall_forall].
    unfold all, Evaluation.shard_counts. intros E.
    apply fmap_nil_inv in E.
    destruct (list_elem_of_split _ _ Hin) as (g1 & g2 & Hgrp).
    rewrite Hgrp, concat_app in E. simpl in E.
    apply app_eq_nil in E as [_ E]. apply app_eq_nil in E as [E _].
    rewrite E in Hn. simpl in Hn. lia. }
  assert (forall c, c ∈ all -> length (intersection c) = K) as HKi.
  { intros c Hc. rewrite Forall_forall in Hlens. by apply Hlens. }
  assert (forall c, c ∈ all -> length (union c) = K) as HKu.
  { intros c Hc. rewrite Forall_forall in Hlens. by apply Hlens. }
  exists all. eexists _, _, _.
  split; [by apply mapM_count_batch|].
  split; [exact (eval_loop_final group loader n Hg Hin Hlen)|].
  cbn [intersection_meter union_meter AverageMeter.sum].
  split; [by apply reduce_at_end_eq|].
  split; [by apply reduce_at_end_eq|].
  split; [intros Hn0; split; by apply Hsum|].
  split; [by apply pixel_totals_eq|].
  rewrite (evaluate_eq group loader n Hg Hin Hlen).
  unfold acc_of, truediv.
  set (t := foldr Z.add 0 (numel <$> shard_counts loader)).
  split; intros Ht.
  - assert (Qeq_bool (inject_Z t) 0 = false) as ->.
    { apply not_true_is_false. intros H%Qeq_bool_iff.
      unfold Qeq in H. simpl in H. lia. }
    assert (n <> 0%nat) as Hn0.
    { intros E. rewrite E in Hn. destruct loader; [|discriminate].
      by apply Ht. }
    simpl. eexists _, _. split; [reflexivity|].
    intros k Hk. rewrite !Hsum by done.
    eexists. split; [|apply iou_value].
    apply iou_of_getitem; by apply class_totals_lookup.
  - rewrite Ht. reflexivity.
Qed.

End Loop.

Lemma evaluate_iou_reduces_whole_group_witness :
  exists all m c t,
    mapM (count_batch Toy.shape Toy.interpolate Toy.model Toy.argmax
            Toy.intersectionAndUnion Toy.cfg (Some 14))
      (concat ToyMore.wide_group) = Ok all /\
    eval_loop Toy.shape Toy.interpolate Toy.model Toy.argmax
      Toy.intersectionAndUnion Toy.cfg (Some 14) ToyMore.wide0
      ToyMore.wide_group new_meters = Ok m /\
    reduce_at_end Toy.shape Toy.interpolate Toy.model Toy.argmax
      Toy.intersectionAndUnion Toy.cfg (Some 14) intersection
      ToyMore.wide_group
    = Ok (AverageMeter.sum (intersection_meter m)) /\
    reduce_at_end Toy.shape Toy.interpolate Toy.model Toy.argmax
      Toy.intersectionAndUnion Toy.cfg (Some 14) union ToyMore.wide_group
    = Ok (AverageMeter.sum (union_meter m)) /\
    (1%nat <> 0%nat ->
     AverageMeter.sum (intersection_meter m)
     = Array (class_totals intersection (Z.to_nat (cfg_nclass Toy.cfg)) all) /\
     AverageMeter.sum (union_meter m)
     = Array (class_totals union (Z.to_nat (cfg_nclass Toy.cfg)) all)) /\
    pixel_totals Toy.shape Toy.interpolate Toy.model Toy.argmax
      Toy.intersectionAndUnion Toy.cfg (Some 14) [ToyMore.wide0]
    = Ok (c, t) /\
    (t <> 0 -> exists iou_class acc,
       Toy.evaluate ToyMore.wide_group ToyMore.wide0 Toy.cfg (Some 14)
       = Ok (iou_class, acc) /\
       forall k, (k < Z.to_nat (cfg_nclass Toy.cfg))%nat -> exists q,
         getitem iou_class k = Ok q /\
         (q == inject_Z (class_total intersection k all)
               / (inject_Z (class_total union k all) + (1 # 10000000000))
               * 100)%Q) /\
    (t = 0 ->
       Toy.evaluate ToyMore.wide_group ToyMore.wide0 Toy.cfg (Some 14)
       = Raise ZeroDivisionError).
Proof.
  apply (evaluate_iou_reduces_whole_group Toy.shape Toy.interpolate Toy.model
           Toy.argmax Toy.intersectionAndUnion Toy.cfg (Some 14)
           ToyMore.wide_group ToyMore.wide0 1%nat).
  - apply list_elem_of_here.
  - repeat constructor.
  - repeat constructor; simpl; lia.
  - intros output target. simpl. split; reflexivity.
Defined.

(** That pass, computed: over the two shards class 0 has 64 pixels in the
    intersection and 112 in the union, class 1 has 16 and 64; rank 0 is
    right on 16 of its own 64 pixels. *)
Example evaluate_wide_group :
  exists iou0 iou1,
    Toy.evaluate ToyMore.wide_group ToyMore.wide0 Toy.cfg (Some 14)
    = Ok (Array [iou0; iou1], 25%Q) /\
    (iou0 == 64 / (112 + (1 # 10000000000)) * 100)%Q /\
    (iou1 == 16 / (64 + (1 # 10000000000)) * 100)%Q.
Proof. eexists _, _. split; [vm_compute; reflexivity|]. split; reflexivity. Qed.

(** Images too small for the multiplier stop the pass at the first
    resize. *)
Example evaluate_small_images :
  Toy.evaluate Toy.group Toy.shard0 Toy.cfg (Some 14) = Raise RuntimeError.
Proof. reflexivity. Qed.

(** A rank whose peer has no batch left makes a collective call without
    counterpart; a rank without any batch divides by zero. *)
Example evaluate_unequal_shards :
  Toy.evaluate [Toy.shard0; []] Toy.shard0 Toy.cfg None = Raise Deadlock /\
  Toy.evaluate [Toy.shard0; []] [] Toy.cfg None = Raise ZeroDivisionError.
Proof. split; reflexivity. Qed.

(** C1, on two workers: in one and the same pass rank 0 returns 25 and
    rank 1 returns 100 as overall accuracy, each the ratio of its own
    shard, while the pixels of the whole group give 5 correct of 8, that
    is 62.5; the IoU arrays of the two ranks are the same. *)
Theorem evaluate_overall_acc_two_workers :
  exists iou_class,
    Toy.evaluate Toy.group Toy.shard0 Toy.cfg None = Ok (iou_class, 25%Q) /\
    Toy.evaluate Toy.group Toy.shard1 Toy.cfg None = Ok (iou_class, 100%Q) /\
    pixel_totals Toy.shape Toy.interpolate Toy.model Toy.argmax
      Toy.intersectionAndUnion Toy.cfg None Toy.group = Ok (5, 8) /\
    acc_of (Scalar 5) (Scalar 8) = Ok (125 # 2)%Q.
Proof.
  eexists. repeat split; vm_compute; reflexivity.
Qed.

End EvalFacts.

(** ** The learning-rate schedule *)

Module ScheduleFacts.
Import Schedule.

Lemma float_pow_nonneg (x y : R) : (0 <= float_pow x y)%R.
Proof.
  unfold float_pow. destruct (Rle_dec x 0); [lra|].
  unfold Rpower. left. apply exp_pos.
Qed.

Lemma float_pow_zero (y : R) : float_pow 0 y = 0%R.
Proof. unfold float_pow. destruct (Rle_dec 0 0); [reflexivity|lra]. Qed.

Lemma float_pow_lt (a b y : R) :
  (0 < y)%R -> (0 <= a)%R -> (a < b)%R -> (float_pow a y < float_pow b y)%R.
Proof.
  intros Hy Ha Hab. unfold float_pow.
  destruct (Rle_dec a 0), (Rle_dec b 0); try lra.
  - unfold Rpower. apply exp_pos.
  - apply Rlt_Rpower_l; lra.
Qed.

(** The base of the power stays in [[0, 1]] and falls with the iteration. *)
Lemma decay_base_bounds (i T : Z) :
  0 <= i <= T -> 0 < T -> (0 <= 1 - IZR i / IZR T <= 1)%R.
Proof.
  intros Hi HT.
  assert (0 < IZR T)%R as HT' by (apply IZR_lt; lia).
  assert (0 <= IZR i)%R as Hi0 by (apply IZR_le; lia).
  assert (IZR i <= IZR T)%R as HiT by (apply IZR_le; lia).
  assert (0 < / IZR T)%R as Hr by (apply Rinv_0_lt_compat; lra).
  assert (IZR T * / IZR T = 1)%R as Hone by (apply Rinv_r; lra).
  unfold Rdiv. nra.
Qed.

Lemma decay_base_lt (i j T : Z) :
  i < j -> 0 < T -> (1 - IZR j / IZR T < 1 - IZR i / IZR T)%R.
Proof.
  intros Hij HT.
  assert (0 < IZR T)%R as HT' by (apply IZR_lt; lia).
  assert (IZR i < IZR j)%R as Hij' by (apply IZR_lt; lia).
  assert (0 < / IZR T)%R as Hr by (apply Rinv_0_lt_compat; lra).
  unfold Rdiv. nra.
Qed.

Lemma lr_at_nonneg (base : R) (i T : Z) :
  (0 <= base)%R -> (0 <= lr_at base i T)%R.
Proof.
  intros Hb. unfold lr_at. apply Rmult_le_pos; [lra|apply float_pow_nonneg].
Qed.

Lemma lr_at_decreasing (base : R) (i j T : Z) :
  (0 < base)%R -> 0 < T -> 0 <= i -> i < j -> j <= T ->
  (lr_at base j T < lr_at base i T)%R.
Proof.
  intros Hb HT Hi Hij Hj. unfold lr_at.
  apply Rmult_lt_compat_l; [lra|].
  apply float_pow_lt; [lra| |by apply decay_base_lt].
  apply decay_base_bounds; lia.
Qed.

Lemma lr_at_end (base : R) (T : Z) : 0 < T -> lr_at base T T = 0%R.
Proof.
  intros HT. unfold lr_at.
  assert (0 < IZR T)%R as HT' by (apply IZR_lt; lia).
  replace (1 - IZR T / IZR T)%R with 0%R by (field; lra).
  rewrite float_pow_zero. lra.
Qed.

Lemma train_steps_succ {Params : Type}
    (optimizer_step : Params -> R -> R -> Z -> Z -> Params)
    (cfg : Config) (len_trainloader epoch k : Z) (s : loop_state Params) :
  0 <= k ->
  train_steps optimizer_step cfg len_trainloader epoch (k + 1) s
  = train_step optimizer_step cfg len_trainloader epoch
      (train_steps optimizer_step cfg len_trainloader epoch k s) k.
Proof.
  intros Hk. unfold train_steps, range.
  replace (k + 1 - 0) with (k + 1) by lia. replace (k - 0) with k by lia.
  rewrite seqZ_app by lia. rewrite foldl_app.
  rewrite (seqZ_cons (0 + k) 1) by lia.
  rewrite (seqZ_nil _ (Z.pred 1)) by lia.
  simpl. reflexivity.
Qed.

(** C5: for a positive base rate and a non-empty loader and epoch range,
    the rate [lr(i) = base_lr * (1 - i/total_iters) ** 0.9] is
    non-negative on [0 <= i <= total_iters], strictly decreasing in [i]
    there, and zero at [total_iters]; after the step [k] of epoch [epoch]
    the loop has set [iters] to [epoch * len(trainloader) + k], the
    backbone group to [lr(iters)] and the head group to
    [lr(iters) * lr_multi]. *)
Theorem lr_schedule_decays {Params : Type}
    (optimizer_step : Params -> R -> R -> Z -> Z -> Params)
    (cfg : Config) (len_trainloader : Z) :
  (0 < cfg_lr cfg)%Q -> 0 < len_trainloader -> 0 < cfg_epochs cfg ->
  let T := total_iters cfg len_trainloader in
  let lr := fun i => lr_at (Q2R (cfg_lr cfg)) i T in
  (forall i, 0 <= i <= T -> (0 <= lr i)%R) /\
  (forall i j, 0 <= i -> i < j -> j <= T -> (lr j < lr i)%R) /\
  lr T = 0%R /\
  (forall epoch k (s : loop_state Params), 0 <= k < len_trainloader ->
     let s' :=
       train_steps optimizer_step cfg len_trainloader epoch (k + 1) s in
     iters s' = epoch * len_trainloader + k /\
     lr0 s' = lr (epoch * len_trainloader + k) /\
     lr1 s' = (lr (epoch * len_trainloader + k)%Z * Q2R (cfg_lr_multi cfg))%R).
Proof.
  intros Hlr Hlen Hep T lr.
  assert (0 < Q2R (cfg_lr cfg))%R as Hbase.
  { rewrite <- RMicromega.Q2R_0. by apply Qlt_Rlt. }
  assert (0 < T) as HT by (unfold T, total_iters; lia).
  split; [intros i _; apply lr_at_nonneg; lra|].
  split; [intros i j Hi Hij Hj; by apply lr_at_decreasing|].
  split; [by apply lr_at_end|].
  intros epoch k s Hk s'. unfold s'.
  rewrite train_steps_succ by lia. repeat split.
Qed.

Lemma lr_schedule_decays_witness :
  let T := total_iters Toy.cfg 5 in
  let lr := fun i => lr_at (Q2R (cfg_lr Toy.cfg)) i T in
  (forall i, 0 <= i <= T -> (0 <= lr i)%R) /\
  (forall i j, 0 <= i -> i < j -> j <= T -> (lr j < lr i)%R) /\
  lr T = 0%R /\
  (forall epoch k (s : loop_state unit), 0 <= k < 5 ->
     let s' := train_steps (fun p _ _ _ _ => p) Toy.cfg 5 epoch (k + 1) s in
     iters s' = epoch * 5 + k /\
     lr0 s' = lr (epoch * 5 + k) /\
     lr1 s' = (lr (epoch * 5 + k)%Z * Q2R (cfg_lr_multi Toy.cfg))%R).
Proof.
  apply (lr_schedule_decays (fun (p : unit) _ _ _ _ => p) Toy.cfg 5);
    [reflexivity | lia | simpl; lia].
Defined.

End ScheduleFacts.

(** ** [main]: resume, epochs and checkpoints *)

Module TrainFacts.
Import Train.

Lemma range_elem (lo hi k : Z) : k ∈ range lo hi <-> lo <= k < hi.
Proof. unfold range. rewrite elem_of_seqZ. lia. Qed.

Lemma range_head (lo hi : Z) : lo < hi -> head (range lo hi) = Some lo.
Proof. intros H. unfold range. rewrite seqZ_cons by lia. reflexivity. Qed.

Lemma range_last (lo hi : Z) : lo < hi -> last (range lo hi) = Some (hi - 1).
Proof.
  intros H. unfold range.
  replace (hi - lo) with ((hi - lo - 1) + 1) by lia.
  rewrite seqZ_app by lia. rewrite (seqZ_cons _ 1) by lia.
  rewrite (seqZ_nil _ (Z.pred 1)) by lia. rewrite last_snoc. f_equal. lia.
Qed.

(** The loop only consults the training oracle on the loader built from
    its configuration. *)
Lemma epoch_loop_ext {Weights OptState : Type}
    (train train' :
       Config -> DataLoader -> Z -> Weights -> OptState -> Weights * OptState)
    (evaluate :
       Weights -> DataLoader -> Config -> option Z -> result (ndarray Q * Q))
    (rank : Z) (cfg : Config) (save_path : string) (es : list Z) :
  (forall e w o, train cfg (trainloader cfg) e w o
                 = train' cfg (trainloader cfg) e w o) ->
  forall (s : TrainingState Weights OptState)
         (fs : gmap string (blob Weights OptState)),
  epoch_loop train evaluate rank cfg save_path es s fs
  = epoch_loop train' evaluate rank cfg save_path es s fs.
Proof.
  intros Hext.
  assert (forall e s, run_epoch train evaluate rank cfg save_path e s
                      = run_epoch train' evaluate rank cfg save_path e s)
    as Hrun.
  { intros e s. unfold run_epoch. rewrite Hext. reflexivity. }
  induction es as [|e es IH]; intros s fs; [reflexivity|].
  simpl. rewrite Hrun.
  destruct (run_epoch train' evaluate rank cfg save_path e s) as [[s' ws]|];
    [|reflexivity].
  rewrite IH. reflexivity.
Qed.

Section Main.
Context {Weights OptState : Type}.
Variable init_model : Config -> Weights.
Variable init_optimizer : Config -> Weights -> OptState.
Variable train_one_epoch :
  Config -> DataLoader -> Z -> Weights -> OptState -> Weights * OptState.
Variable evaluate :
  Weights -> DataLoader -> Config -> option Z -> result (ndarray Q * Q).

#[local] Abbreviation State := (TrainingState Weights OptState).
#[local] Abbreviation Files := (gmap string (blob Weights OptState)).
#[local] Abbreviation startup := (startup init_model init_optimizer).
#[local] Abbreviation fresh_state := (fresh_state init_model init_optimizer).
#[local] Abbreviation run_epoch := (run_epoch train_one_epoch evaluate).
#[local] Abbreviation epoch_loop := (epoch_loop train_one_epoch evaluate).
#[local] Abbreviation main :=
  (main init_model init_optimizer train_one_epoch evaluate).

Lemma load_checkpoint_of (s : State) :
  load_checkpoint (Pickled (checkpoint_of s)) = Ok s.
Proof. destruct s. reflexivity. Qed.

Lemma load_checkpoint_malformed (b : blob Weights OptState) :
  ~ well_formed b -> exists e, load_checkpoint b = Raise e.
Proof.
  intros Hb. destruct b as [[[w|] [o|] [e|] [iou|] [acc|]]| |[|byte bytes]];
    try (eexists; reflexivity).
  exfalso. apply Hb. unfold well_formed. eauto 10.
Qed.

Lemma getitem_1_0 {A} (x : ndarray A) (a : A) :
  getitem x 1 = Ok a -> exists a0, getitem x 0 = Ok a0.
Proof.
  destruct x as [|[|a0 l]]; simpl; try discriminate. eauto.
Qed.

(** One epoch, once training and evaluation have returned. *)
Lemma run_epoch_eq (rank : Z) (cfg : Config) (save_path : string) (e : Z)
    (s : State) (w : Weights) (o : OptState) (iou_class : ndarray Q)
    (acc iou : Q) :
  train_one_epoch cfg (trainloader cfg) e (model s) (optimizer s) = (w, o) ->
  evaluate w valloader cfg (multiplier_of cfg) = Ok (iou_class, acc) ->
  getitem iou_class 1 = Ok iou ->
  run_epoch rank cfg save_path e s
  = Ok ((track_best e w o iou acc s).2,
        checkpoint_writes rank save_path (track_best e w o iou acc s).2
          (track_best e w o iou acc s).1).
Proof.
  intros Htrain Heval Hget. unfold Train.run_epoch.
  rewrite Htrain, Heval. simpl.
  destruct (getitem_1_0 _ _ Hget) as [a0 H0].
  rewrite Hget, H0. destruct (decide (rank = 0)); reflexivity.
Qed.

Lemma run_epoch_inv (rank : Z) (cfg : Config) (save_path : string) (e : Z)
    (s s' : State) (ws : list (string * checkpoint Weights OptState)) :
  run_epoch rank cfg save_path e s = Ok (s', ws) ->
  exists w o iou acc,
    s' = (track_best e w o iou acc s).2 /\
    ws = checkpoint_writes rank save_path s' (track_best e w o iou acc s).1.
Proof.
  unfold Train.run_epoch.
  destruct train_one_epoch as [w o].
  destruct evaluate as [[iou_class acc]|]; [|discriminate]. simpl.
  destruct (decide (rank = 0)).
  - destruct (getitem iou_class 0); [|discriminate]. simpl.
    destruct (getitem iou_class 1) as [iou|]; [|discriminate]. simpl.
    intros [= <- <-]. eauto 10.
  - simpl. destruct (getitem iou_class 1) as [iou|]; [|discriminate]. simpl.
    intros [= <- <-]. eauto 10.
Qed.

Lemma track_best_iou (e : Z) (w : Weights) (o : OptState) (iou acc : Q)
    (s : State) :
  previous_best_iou (track_best e w o iou acc s).2
  = Py.max iou (previous_best_iou s).
Proof. reflexivity. Qed.

Lemma track_best_epoch (e : Z) (w : Weights) (o : OptState) (iou acc : Q)
    (s : State) :
  epoch (track_best e w o iou acc s).2 = e.
Proof. reflexivity. Qed.

Lemma recorded_checkpoint_writes (rank : Z) (save_path : string) (s : State)
    (is_best : bool) :
  Forall (eq (previous_best_iou s))
    (recorded_best_iou (checkpoint_writes rank save_path s is_best)).
Proof.
  unfold checkpoint_writes, recorded_best_iou.
  destruct (decide (rank = 0)), is_best; simpl; repeat constructor.
Qed.

Lemma writes_checkpoint_of (rank : Z) (save_path : string) (s : State)
    (is_best : bool) :
  Forall (fun w => w.2 = checkpoint_of s)
    (checkpoint_writes rank save_path s is_best).
Proof.
  unfold checkpoint_writes.
  destruct (decide (rank = 0)), is_best; simpl; repeat constructor.
Qed.

Lemma sorted_prepend (q : Q) (same rest : list Q) :
  Forall (eq q) same -> Forall (Qle q) rest -> StronglySorted Qle rest ->
  StronglySorted Qle (same ++ rest) /\ Forall (Qle q) (same ++ rest).
Proof.
  induction 1 as [|x same <- _ IH]; intros Hrest Hs; [done|].
  destruct (IH Hrest Hs) as [IH1 IH2]. simpl. split.
  - by constructor.
  - constructor; [apply Qle_refl|done].
Qed.

Lemma Forall_Qle_trans (a b : Q) (l : list Q) :
  (a <= b)%Q -> Forall (Qle b) l -> Forall (Qle a) l.
Proof.
  intros Hab Hl. eapply Forall_impl; [exact Hl|].
  intros x Hx. by eapply Qle_trans.
Qed.

(** Along the loop the tracker only grows, in the states and in the
    checkpoints written. *)
Lemma epoch_loop_sorted (rank : Z) (cfg : Config) (save_path : string)
    (es : list Z) :
  forall (s : State) (fs : Files),
  let r := epoch_loop rank cfg save_path es s fs in
  StronglySorted Qle (previous_best_iou s :: (previous_best_iou <$> trajectory r))
  /\ StronglySorted Qle (recorded_best_iou (writes r))
  /\ Forall (Qle (previous_best_iou s)) (recorded_best_iou (writes r))
  /\ Forall (fun w => exists s', s' ∈ trajectory r /\ w.2 = checkpoint_of s')
       (writes r).
Proof.
  induction es as [|e es IH]; intros s fs; simpl.
  { repeat split; repeat constructor. }
  destruct (run_epoch rank cfg save_path e s) as [[s' ws]|x] eqn:Hrun; simpl.
  2:{ repeat split; repeat constructor. }
  destruct (run_epoch_inv _ _ _ _ _ _ _ Hrun) as (w & o & iou & acc & Hs' & Hws).
  assert (previous_best_iou s <= previous_best_iou s')%Q as Hle.
  { rewrite Hs', track_best_iou. apply max_spec. }
  destruct (IH s' (apply_writes ws fs)) as (IH1 & IH2 & IH3 & IH4).
  set (r := epoch_loop rank cfg save_path es s' (apply_writes ws fs)) in *.
  assert (Forall (eq (previous_best_iou s')) (recorded_best_iou ws)) as Hws'.
  { rewrite Hws. apply recorded_checkpoint_writes. }
  unfold recorded_best_iou in *. rewrite omap_app.
  destruct (sorted_prepend _ _ _ Hws' IH3 IH2) as [Hsort Hall].
  split; [|split; [exact Hsort|split]].
  - constructor; [exact IH1|].
    constructor; [exact Hle|].
    apply StronglySorted_inv in IH1 as [_ IH1].
    by eapply Forall_Qle_trans.
  - by eapply Forall_Qle_trans.
  - apply Forall_app. split.
    + rewrite Hws. eapply Forall_impl; [apply writes_checkpoint_of|].
      intros x Hx. exists s'. split; [apply list_elem_of_here|exact Hx].
    + eapply Forall_impl; [exact IH4|].
      intros x (s'' & Hin & Hx). exists s''. split; [by apply list_elem_of_further|done].
Qed.

(** The epochs completed are the first of those asked for, all of them when
    nothing was raised. *)
Lemma epoch_loop_epochs (rank : Z) (cfg : Config) (save_path : string)
    (es : list Z) :
  forall (s : State) (fs : Files),
  let r := epoch_loop rank cfg save_path es s fs in
  (epoch <$> trajectory r) `prefix_of` es /\
  (raised r = None -> epoch <$> trajectory r = es).
Proof.
  induction es as [|e es IH]; intros s fs; simpl.
  { split; [apply prefix_nil|done]. }
  destruct (run_epoch rank cfg save_path e s) as [[s' ws]|x] eqn:Hrun; simpl.
  2:{ split; [apply prefix_nil|discriminate]. }
  destruct (run_epoch_inv _ _ _ _ _ _ _ Hrun) as (w & o & iou & acc & Hs' & _).
  destruct (IH s' (apply_writes ws fs)) as [IH1 IH2].
  assert (epoch s' = e) as -> by (rewrite Hs'; apply track_best_epoch).
  split.
  - by apply prefix_cons.
  - intros Hr. f_equal. by apply IH2.
Qed.

(** C3: at the end of an epoch whose evaluation gave the change-class IoU
    [iou] and the accuracy [acc], rank 0 always writes the new state to
    [latest.pth]; it writes the same record to [best.pth] as well exactly
    when [iou] is at least the previous best (a tie included), and then the
    stored best accuracy is [acc], otherwise the stored best accuracy is
    kept and [best.pth] is left as it was; a rank other than 0 writes
    nothing. *)
Theorem epoch_boundary_writes (rank : Z) (cfg : Config) (save_path : string)
    (e : Z) (s : State) (w : Weights) (o : OptState)
    (iou_class : ndarray Q) (acc iou : Q) (fs : Files) :
  train_one_epoch cfg (trainloader cfg) e (model s) (optimizer s) = (w, o) ->
  evaluate w valloader cfg (multiplier_of cfg) = Ok (iou_class, acc) ->
  getitem iou_class 1 = Ok iou ->
  let latest := path_join save_path "latest.pth" in
  let best := path_join save_path "best.pth" in
  exists s' ws,
    run_epoch rank cfg save_path e s = Ok (s', ws) /\
    latest <> best /\
    (rank = 0 -> (previous_best_iou s <= iou)%Q ->
       ws = [(latest, checkpoint_of s'); (best, checkpoint_of s')] /\
       previous_best_acc s' = acc /\
       apply_writes ws fs !! latest = Some (Pickled (checkpoint_of s')) /\
       apply_writes ws fs !! best = Some (Pickled (checkpoint_of s'))) /\
    (rank = 0 -> ~ (previous_best_iou s <= iou)%Q ->
       ws = [(latest, checkpoint_of s')] /\
       previous_best_acc s' = previous_best_acc s /\
       apply_writes ws fs !! latest = Some (Pickled (checkpoint_of s')) /\
       apply_writes ws fs !! best = fs !! best) /\
    (rank <> 0 -> ws = [] /\ apply_writes ws fs = fs).
Proof.
  intros Htrain Heval Hget latest best.
  pose proof (latest_ne_best save_path) as Hne. fold latest best in Hne.
  rewrite (run_epoch_eq rank cfg save_path e s w o iou_class acc iou)
    by assumption.
  eexists _, _. split; [reflexivity|]. split; [exact Hne|].
  unfold track_best, checkpoint_writes, apply_writes, torch_save, Py.ge.
  fold latest best. cbn [fst snd].
  split; [|split].
  - intros -> Hle. apply Qle_bool_iff in Hle. rewrite Hle.
    rewrite decide_True by done. cbn [foldl fst snd].
    repeat split.
    + rewrite lookup_insert_ne by (intros H; by apply Hne).
      apply lookup_insert_eq.
    + apply lookup_insert_eq.
  - intros -> Hnle.
    assert (Qle_bool (previous_best_iou s) iou = false) as Hb.
    { apply not_true_is_false. intros H. by apply Hnle, Qle_bool_iff. }
    rewrite Hb. rewrite decide_True by done. cbn [foldl fst snd].
    repeat split.
    + apply lookup_insert_eq.
    + by apply lookup_insert_ne.
  - intros Hrank. rewrite decide_False by done. split; reflexivity.
Qed.

(** C4: after an epoch the tracker [previous_best_iou] is the maximum of
    its prior value and the epoch's change-class IoU; along any run of the
    loop it never decreases, neither in the successive states nor in the
    successive checkpoints written, each of which records a state of the
    run. *)
Theorem best_iou_never_decreases (rank : Z) (cfg : Config)
    (save_path : string) :
  (forall (e : Z) (s : State) (w : Weights) (o : OptState)
          (iou_class : ndarray Q) (acc iou : Q),
     train_one_epoch cfg (trainloader cfg) e (model s) (optimizer s)
     = (w, o) ->
     evaluate w valloader cfg (multiplier_of cfg) = Ok (iou_class, acc) ->
     getitem iou_class 1 = Ok iou ->
     exists s' ws,
       run_epoch rank cfg save_path e s = Ok (s', ws) /\
       previous_best_iou s' = Py.max iou (previous_best_iou s) /\
       (previous_best_iou s <= previous_best_iou s')%Q /\
       (iou <= previous_best_iou s')%Q /\
       (previous_best_iou s' = iou \/
        previous_best_iou s' = previous_best_iou s)) /\
  (forall (es : list Z) (s : State) (fs : Files),
     let r := epoch_loop rank cfg save_path es s fs in
     StronglySorted Qle
       (previous_best_iou s :: (previous_best_iou <$> trajectory r)) /\
     StronglySorted Qle (recorded_best_iou (writes r)) /\
     Forall (Qle (previous_best_iou s)) (recorded_best_iou (writes r)) /\
     Forall (fun w => exists s', s' ∈ trajectory r /\ w.2 = checkpoint_of s')
       (writes r)).
Proof.
  split.
  - intros e s w o iou_class acc iou Htrain Heval Hget.
    rewrite (run_epoch_eq rank cfg save_path e s w o iou_class acc iou)
      by assumption.
    eexists _, _. split; [reflexivity|].
    rewrite track_best_iou.
    destruct (max_spec iou (previous_best_iou s)) as (H1 & H2 & H3).
    repeat split; assumption.
  - intros es s fs. apply epoch_loop_sorted.
Qed.

(** C6: without [latest.pth] the run starts from the fresh state and its
    loop goes over the epochs [0 .. epochs - 1]; with a [latest.pth] that
    holds the five entries, the weights, optimizer state, epoch and both
    trackers are taken from it unchanged and the loop goes over
    [checkpoint.epoch + 1 .. epochs - 1]; the epochs completed are those,
    in order, up to the first exception if there is one. *)
Theorem main_resumes_after_checkpoint (rank : Z) (cfg : Config)
    (save_path : string) (fs : Files) :
  let cfg' := double_batch_size cfg in
  let latest := path_join save_path "latest.pth" in
  (fs !! latest = None ->
     startup cfg' save_path fs = Ok (Fresh, fresh_state cfg') /\
     main rank cfg save_path fs
     = epoch_loop rank cfg' save_path (range 0 (cfg_epochs cfg))
         (fresh_state cfg') fs) /\
  (forall (w : Weights) (o : OptState) (e : Z) (iou acc : Q),
     fs !! latest
     = Some (Pickled {| ck_model := Some w; ck_optimizer := Some o;
                        ck_epoch := Some e; ck_previous_best_iou := Some iou;
                        ck_previous_best_acc := Some acc |}) ->
     let s := {| model := w; optimizer := o; epoch := e;
                 previous_best_iou := iou; previous_best_acc := acc |} in
     startup cfg' save_path fs = Ok (Resumed, s) /\
     main rank cfg save_path fs
     = epoch_loop rank cfg' save_path (range (e + 1) (cfg_epochs cfg)) s fs) /\
  (forall lo hi : Z,
     (forall k, k ∈ range lo hi <-> lo <= k < hi) /\
     (lo < hi -> head (range lo hi) = Some lo /\
                 last (range lo hi) = Some (hi - 1))) /\
  (forall (es : list Z) (s : State) (fs' : Files),
     let r := epoch_loop rank cfg' save_path es s fs' in
     (epoch <$> trajectory r) `prefix_of` es /\
     (raised r = None -> epoch <$> trajectory r = es)).
Proof.
  intros cfg' latest. split; [|split; [|split]].
  - intros Hnone. unfold Train.main, Train.startup.
    fold cfg' latest. rewrite Hnone. split; reflexivity.
  - intros w o e iou acc Hsome s. unfold Train.main, Train.startup.
    fold cfg' latest. rewrite Hsome. split; reflexivity.
  - intros lo hi. split; [intros k; apply range_elem|].
    intros Hlt. split; [by apply range_head|by apply range_last].
  - intros es s fs'. apply epoch_loop_epochs.
Qed.

(** C7: loading the record saved from a state gives that state back, all
    five fields; so does a start on the files rank 0 leaves after saving
    it. *)
Theorem checkpoint_roundtrip (s : State) (cfg : Config)
    (save_path : string) (is_best : bool) (fs : Files) :
  load_checkpoint (Pickled (checkpoint_of s)) = Ok s /\
  apply_writes (checkpoint_writes 0 save_path s is_best) fs
    !! path_join save_path "latest.pth" = Some (Pickled (checkpoint_of s)) /\
  startup cfg save_path
    (apply_writes (checkpoint_writes 0 save_path s is_best) fs)
  = Ok (Resumed, s).
Proof.
  assert (apply_writes (checkpoint_writes 0 save_path s is_best) fs
            !! path_join save_path "latest.pth"
          = Some (Pickled (checkpoint_of s))) as Hlook.
  { unfold checkpoint_writes, apply_writes, torch_save.
    rewrite decide_True by done. destruct is_best; cbn [foldl fst snd].
    - rewrite lookup_insert_ne
        by (intros H; by apply (latest_ne_best save_path)).
      apply lookup_insert_eq.
    - apply lookup_insert_eq. }
  split; [apply load_checkpoint_of|]. split; [exact Hlook|].
  unfold Train.startup. rewrite Hlook, load_checkpoint_of. reflexivity.
Qed.

(** C9: the start takes the fresh path exactly when [latest.pth] does not
    exist; when the file exists and is not a readable dictionary with the
    five entries, loading raises, and the run ends with that exception
    before any epoch and any write. *)
Theorem malformed_checkpoint_is_fatal (rank : Z) (cfg : Config)
    (save_path : string) (fs : Files) :
  let latest := path_join save_path "latest.pth" in
  ((exists s, startup cfg save_path fs = Ok (Fresh, s))
   <-> fs !! latest = None) /\
  (forall b, fs !! latest = Some b -> ~ well_formed b ->
     exists x,
       load_checkpoint b = Raise x /\
       startup (double_batch_size cfg) save_path fs = Raise x /\
       main rank cfg save_path fs
       = {| trajectory := []; writes := []; files := fs;
            raised := Some x |}).
Proof.
  intros latest. split.
  - unfold Train.startup. fold latest. split.
    + intros [s Hs]. destruct (fs !! latest) as [b|]; [|reflexivity].
      destruct (load_checkpoint b); discriminate.
    + intros ->. eauto.
  - intros b Hb Hmal.
    destruct (load_checkpoint_malformed b Hmal) as [x Hx].
    exists x. split; [exact Hx|].
    unfold Train.main, Train.startup. fold latest. rewrite Hb, Hx.
    split; reflexivity.
Qed.

(** C10: [main] doubles the configured batch size once, before anything
    else reads it, and builds the training loader with the doubled value:
    the loader's batch size is twice the configured one, and the run does
    not depend on what training would do with any other batch size. *)
Theorem trainloader_batch_size_doubled (cfg : Config) :
  cfg_batch_size (double_batch_size cfg) = 2 * cfg_batch_size cfg /\
  dl_batch_size (trainloader (double_batch_size cfg))
  = 2 * cfg_batch_size cfg /\
  (forall (train' :
             Config -> DataLoader -> Z -> Weights -> OptState ->
             Weights * OptState)
          (rank : Z) (save_path : string) (fs : Files),
     (forall c dl e w o, dl_batch_size dl = 2 * cfg_batch_size cfg ->
        train_one_epoch c dl e w o = train' c dl e w o) ->
     main rank cfg save_path fs
     = Train.main init_model init_optimizer train' evaluate rank cfg
         save_path fs).
Proof.
  assert (dl_batch_size (trainloader (double_batch_size cfg))
          = 2 * cfg_batch_size cfg) as Hdl by (simpl; lia).
  split; [simpl; lia|]. split; [exact Hdl|].
  intros train' rank save_path fs Hext. unfold Train.main.
  destruct (startup (double_batch_size cfg) save_path fs) as [[k s]|x];
    [|reflexivity].
  apply epoch_loop_ext. intros e w o. by apply Hext.
Qed.

End Main.

Lemma epoch_boundary_writes_witness :
  let latest := path_join "out" "latest.pth" in
  let best := path_join "out" "best.pth" in
  exists s' ws,
    run_epoch ToyRun.train_one_epoch ToyRun.evaluate 0 Toy.cfg "out" 1
      ToyRun.state0 = Ok (s', ws) /\
    latest <> best /\
    (0 = 0 -> (previous_best_iou ToyRun.state0 <= 7)%Q ->
       ws = [(latest, checkpoint_of s'); (best, checkpoint_of s')] /\
       previous_best_acc s' = 95%Q /\
       apply_writes ws ∅ !! latest = Some (Pickled (checkpoint_of s')) /\
       apply_writes ws ∅ !! best = Some (Pickled (checkpoint_of s'))) /\
    (0 = 0 -> ~ (previous_best_iou ToyRun.state0 <= 7)%Q ->
       ws = [(latest, checkpoint_of s')] /\
       previous_best_acc s' = previous_best_acc ToyRun.state0 /\
       apply_writes ws ∅ !! latest = Some (Pickled (checkpoint_of s')) /\
       apply_writes ws ∅ !! best = (∅ : gmap string (blob Z Z)) !! best) /\
    (0 <> 0 -> ws = [] /\ apply_writes ws ∅ = ∅).
Proof.
  apply (epoch_boundary_writes ToyRun.train_one_epoch ToyRun.evaluate 0
           Toy.cfg "out" 1 ToyRun.state0 7 2 (Array [90%Q; 7%Q]) 95%Q 7%Q ∅);
    reflexivity.
Defined.

Lemma best_iou_never_decreases_witness :
  exists s' ws,
    run_epoch ToyRun.train_one_epoch ToyRun.evaluate 0 Toy.cfg "out" 1
      ToyRun.state0 = Ok (s', ws) /\
    previous_best_iou s' = Py.max 7 (previous_best_iou ToyRun.state0) /\
    (previous_best_iou ToyRun.state0 <= previous_best_iou s')%Q /\
    (7 <= previous_best_iou s')%Q /\
    (previous_best_iou s' = 7%Q \/
     previous_best_iou s' = previous_best_iou ToyRun.state0).
Proof.
  apply (proj1 (best_iou_never_decreases ToyRun.train_one_epoch
                  ToyRun.evaluate 0 Toy.cfg "out")
           1 ToyRun.state0 7 2 (Array [90%Q; 7%Q]) 95%Q 7%Q);
    reflexivity.
Defined.

Lemma main_resumes_after_checkpoint_witness :
  let s := ToyRun.state0 in
  startup ToyRun.init_model ToyRun.init_optimizer
    (double_batch_size Toy.cfg) "out" ToyRun.files0 = Ok (Resumed, s) /\
  ToyRun.main 0 Toy.cfg "out" ToyRun.files0
  = epoch_loop ToyRun.train_one_epoch ToyRun.evaluate 0
      (double_batch_size Toy.cfg) "out" (range (0 + 1) (cfg_epochs Toy.cfg))
      s ToyRun.files0.
Proof.
  apply (proj1 (proj2 (main_resumes_after_checkpoint ToyRun.init_model
                         ToyRun.init_optimizer ToyRun.train_one_epoch
                         ToyRun.evaluate 0 Toy.cfg "out" ToyRun.files0))
           3 1 0 (5 # 2)%Q 80%Q).
  reflexivity.
Defined.

Lemma malformed_checkpoint_is_fatal_witness :
  exists x,
    load_checkpoint (Unreadable [80; 75] : blob Z Z) = Raise x /\
    startup ToyRun.init_model ToyRun.init_optimizer
      (double_batch_size Toy.cfg) "out" ToyRun.files_corrupt = Raise x /\
    ToyRun.main 0 Toy.cfg "out" ToyRun.files_corrupt
    = {| trajectory := []; writes := []; files := ToyRun.files_corrupt;
         raised := Some x |}.
Proof.
  apply (proj2 (malformed_checkpoint_is_fatal ToyRun.init_model
                  ToyRun.init_optimizer ToyRun.train_one_epoch
                  ToyRun.evaluate 0 Toy.cfg "out" ToyRun.files_corrupt)
           (Unreadable [80; 75])).
  - reflexivity.
  - intros (w & o & e & iou & acc & H). discriminate H.
Defined.

Lemma trainloader_batch_size_doubled_witness :
  ToyRun.main 0 Toy.cfg "out" ∅
  = Train.main ToyRun.init_model ToyRun.init_optimizer
      ToyRun.train_only_8 ToyRun.evaluate 0 Toy.cfg "out" ∅.
Proof.
  apply (proj2 (proj2 (trainloader_batch_size_doubled ToyRun.init_model
                         ToyRun.init_optimizer ToyRun.train_one_epoch
                         ToyRun.evaluate Toy.cfg))
           ToyRun.train_only_8 0 "out" ∅).
  intros c dl e w o Hdl. unfold ToyRun.train_only_8.
  rewrite decide_True by exact Hdl. reflexivity.
Defined.

(** A run of three epochs from scratch on rank 0, and the same run cut
    after its first epoch and started again on the files it left. *)
Example toy_run_from_scratch :
  previous_best_iou <$> trajectory (ToyRun.main 0 Toy.cfg "out" ∅)
  = [8%Q; 16%Q; 24%Q] /\
  epoch <$> trajectory (ToyRun.main 0 Toy.cfg "out" ∅) = [0; 1; 2] /\
  raised (ToyRun.main 0 Toy.cfg "out" ∅) = None.
Proof. repeat split; vm_compute; reflexivity. Qed.

Example toy_run_resumed :
  let first := epoch_loop ToyRun.train_one_epoch ToyRun.evaluate 0
                 (double_batch_size Toy.cfg) "out" [0]
                 (fresh_state ToyRun.init_model ToyRun.init_optimizer
                    (double_batch_size Toy.cfg)) ∅ in
  trajectory first ++ trajectory (ToyRun.main 0 Toy.cfg "out" (files first))
  = trajectory (ToyRun.main 0 Toy.cfg "out" ∅).
Proof. vm_compute. reflexivity. Qed.

Example toy_run_other_rank_writes_nothing :
  writes (ToyRun.main 1 Toy.cfg "out" ∅) = [] /\
  files (ToyRun.main 1 Toy.cfg "out" ∅) = ∅.
Proof. split; vm_compute; reflexivity. Qed.

(** The exception a malformed [latest.pth] stops the start with: a file
    without bytes, other unreadable bytes, a pickled object that is not a
    dictionary, a dictionary without the optimizer entry. *)
Example load_checkpoint_exceptions :
  load_checkpoint (Unreadable [] : blob Z Z) = Raise EOFError /\
  load_checkpoint (Unreadable [80; 75] : blob Z Z) = Raise UnpicklingError /\
  load_checkpoint (PickledOther : blob Z Z) = Raise TypeError /\
  load_checkpoint
    (Pickled {| ck_model := Some 1; ck_optimizer := None;
                ck_epoch := Some 0; ck_previous_best_iou := Some 0%Q;
                ck_previous_best_acc := Some 0%Q |} : blob Z Z)
  = Raise KeyError.
Proof. repeat split. Qed.

End TrainFacts.

(* ===================================================================== *)
(** * Further facts *)
(* ===================================================================== *)

(** ** Resizing, errors and invariances of [evaluate] *)

Module EvalMore.
Import Evaluation.

Lemma resize_dim_remainder (d m : Z) :
  0 <= d -> 0 < m ->
  (2 * d + m) / (2 * m) * m
  = if 2 * (d mod m) <? m then d - d mod m else d - d mod m + m.
Proof.
  intros Hd Hm.
  pose proof (Z.div_mod d m ltac:(lia)) as Hdm.
  pose proof (Z.mod_pos_bound d m Hm) as Hr.
  destruct (Z.ltb_spec (2 * (d mod m)) m) as [Hlt|Hge].
  - rewrite <- (Z.div_unique (2 * d + m) (2 * m) (d / m) (2 * (d mod m) + m));
      [lia | lia | lia].
  - rewrite <- (Z.div_unique (2 * d + m) (2 * m) (d / m + 1)
                  (2 * (d mod m) - m)); [lia | lia | lia].
Qed.

(** X1: for a dimension [d >= 0] and a multiplier [m > 0], line 47 drops
    the remainder [d mod m] when it is below half the multiplier and
    completes it to the next multiple otherwise; a dimension that already
    is a multiple is left as it is. *)
Theorem resize_dim_by_remainder (d m : Z) :
  0 <= d -> 0 < m ->
  resize_dim d m
  = Ok (if 2 * (d mod m) <? m then d - d mod m else d - d mod m + m) /\
  (d mod m = 0 -> resize_dim d m = Ok d).
Proof.
  intros Hd Hm. rewrite ResizeFacts.resize_dim_floor by done.
  rewrite resize_dim_remainder by done. split; [reflexivity|].
  intros H0. rewrite H0. replace (2 * 0 <? m) with true.
  - f_equal. lia.
  - symmetry. apply Z.ltb_lt. lia.
Qed.

Lemma resize_dim_by_remainder_witness :
  resize_dim 256 14
  = Ok (if 2 * (256 mod 14) <? 14 then 256 - 256 mod 14
        else 256 - 256 mod 14 + 14) /\
  (256 mod 14 = 0 -> resize_dim 256 14 = Ok 256).
Proof. apply (resize_dim_by_remainder 256 14); lia. Defined.

(** X2: the dimension line 47 computes is [0] exactly when the original
    one is below half the multiplier, and otherwise at least the
    multiplier; a rank whose next batch has such a height or width leaves
    [evaluate] with the [RuntimeError] of the first resize. *)
Theorem resize_dim_zero_iff (d m : Z) :
  0 <= d -> 0 < m ->
  exists r, resize_dim d m = Ok r /\ (r = 0 <-> 2 * d < m) /\
            (m <= 2 * d -> m <= r) /\
            (2 * d < m ->
             forall (Tensor : Type) (shape : Tensor -> Z * Z)
                    (interpolate :
                       Tensor -> Z * Z -> interp_mode -> bool -> Tensor)
                    (model : Tensor -> Tensor -> Tensor)
                    (argmax : Tensor -> list Z)
                    (intersectionAndUnion :
                       list Z -> list Z -> Z -> Z -> list Z * list Z * list Z)
                    (cfg : Config) (group : list (list (batch Tensor)))
                    (b : batch Tensor) (loader : list (batch Tensor))
                    (other : Z),
               0 <= other ->
               shape (imgA b) = (d, other) \/ shape (imgA b) = (other, d) ->
               evaluate shape interpolate model argmax intersectionAndUnion
                 group (b :: loader) cfg (Some m)
               = Raise RuntimeError).
Proof.
  intros Hd Hm. eexists. split; [by apply ResizeFacts.resize_dim_floor|].
  rewrite resize_dim_remainder by done.
  pose proof (Z.div_mod d m ltac:(lia)) as Hdm.
  pose proof (Z.mod_pos_bound d m Hm) as Hr.
  assert (0 <= d / m) as Hq by (apply Z.div_pos; lia).
  split; [|split].
  - set (q := d / m) in *. set (r := d mod m) in *.
    assert (q = 0 \/ 1 <= q) as [Hq0|Hq1] by lia.
    + rewrite Hq0 in Hdm.
      destruct (Z.ltb_spec (2 * r) m) as [Hlt|Hge]; split; lia.
    + assert (m <= m * q) by nia.
      destruct (Z.ltb_spec (2 * r) m) as [Hlt|Hge]; split; lia.
  - set (q := d / m) in *. set (r := d mod m) in *.
    assert (q = 0 \/ 1 <= q) as [Hq0|Hq1] by lia.
    + rewrite Hq0 in Hdm.
      destruct (Z.ltb_spec (2 * r) m) as [Hlt|Hge]; lia.
    + assert (m <= m * q) by nia.
      destruct (Z.ltb_spec (2 * r) m) as [Hlt|Hge]; lia.
  - intros Hsmall Tensor shape interpolate model argmax intersectionAndUnion
      cfg group b loader other Ho Hshape.
    unfold evaluate. cbn [eval_loop]. unfold count_batch.
    destruct Hshape as [Hshape|Hshape].
    + rewrite (ResizeFacts.predict_too_small shape interpolate model argmax
                 m d other) by (done || lia || (by left)).
      reflexivity.
    + rewrite (ResizeFacts.predict_too_small shape interpolate model argmax
                 m other d) by (done || lia || (by right)).
      reflexivity.
Qed.

Lemma resize_dim_zero_iff_witness :
  exists r, resize_dim 6 14 = Ok r /\ (r = 0 <-> 2 * 6 < 14) /\
            (14 <= 2 * 6 -> 14 <= r) /\
            (2 * 6 < 14 ->
             forall (Tensor : Type) (shape : Tensor -> Z * Z)
                    (interpolate :
                       Tensor -> Z * Z -> interp_mode -> bool -> Tensor)
                    (model : Tensor -> Tensor -> Tensor)
                    (argmax : Tensor -> list Z)
                    (intersectionAndUnion :
                       list Z -> list Z -> Z -> Z -> list Z * list Z * list Z)
                    (cfg : Config) (group : list (list (batch Tensor)))
                    (b : batch Tensor) (loader : list (batch Tensor))
                    (other : Z),
               0 <= other ->
               shape (imgA b) = (6, other) \/ shape (imgA b) = (other, 6) ->
               evaluate shape interpolate model argmax intersectionAndUnion
                 group (b :: loader) cfg (Some 14)
               = Raise RuntimeError).
Proof. apply (resize_dim_zero_iff 6 14); lia. Defined.

Lemma local_sum_perm (field : counts -> list Z) (cs cs' : list counts) :
  cs ≡ₚ cs' -> local_sum field cs = local_sum field cs'.
Proof.
  induction 1 as [|c cs cs' _ IH|c c' cs|cs1 cs2 cs3 _ IH1 _ IH2].
  - reflexivity.
  - rewrite !EvalFacts.local_sum_cons, IH. reflexivity.
  - rewrite !EvalFacts.local_sum_cons, !nd_add_assoc.
    f_equal. apply nd_add_comm.
  - congruence.
Qed.

(** In exact arithmetic a ratio of counts [0 <= c <= t], [t <> 0], times
    100 lies between 0 and 100. *)
Lemma percent_bounds (c t : Z) :
  0 <= c <= t -> t <> 0 ->
  (0 <= fmul (Qred (inject_Z c / inject_Z t)) 100 <= 100)%Q.
Proof.
  intros Hc Ht. unfold fmul. rewrite !Qred_correct.
  destruct t as [|p|p]; try lia.
  rewrite <- Qmake_Qdiv. unfold Qle, Qmult. simpl.
  rewrite Pos.mul_1_r. lia.
Qed.

Lemma iou_bounds (i u : Z) :
  0 <= i <= u ->
  (0 <= fmul (fdiv (inject_Z i) (fadd (inject_Z u) (1 # 10000000000))) 100
   <= 100)%Q.
Proof.
  intros Hi. unfold fmul, fdiv, fadd. rewrite !Qred_correct.
  assert (0 < inject_Z u + (1 # 10000000000))%Q as Hden.
  { unfold Qlt, Qplus. simpl. lia. }
  assert (0 <= inject_Z i / (inject_Z u + (1 # 10000000000)))%Q as H0.
  { apply Qle_shift_div_l; [exact Hden|].
    unfold Qle, Qmult, Qplus. simpl. lia. }
  assert (inject_Z i / (inject_Z u + (1 # 10000000000)) <= 1)%Q as H1.
  { apply Qle_shift_div_r; [exact Hden|].
    unfold Qle, Qmult, Qplus. simpl. lia. }
  split; Lqa.lra.
Qed.

Lemma iou_zero (u : Z) :
  fmul (fdiv (inject_Z 0) (fadd (inject_Z u) (1 # 10000000000))) 100 = 0%Q.
Proof.
  unfold fmul, fdiv. change 0%Q with (Qred 0). apply Qred_complete.
  rewrite Qred_correct. unfold Qdiv. change (inject_Z 0) with 0%Q.
  Lqa.lra.
Qed.

(** X10: for a class whose accumulated counts satisfy
    [0 <= intersection <= union], the IoU of line 75 lies between 0 and
    100; it is 0 when the intersection is 0, also for a class that never
    occurs (zero union): the added [1e-10] keeps the division defined. *)
Theorem iou_of_class_bounds (isum usum : list Z) (k : nat) (i u : Z) :
  isum !! k = Some i -> usum !! k = Some u -> 0 <= i <= u ->
  exists q,
    getitem (iou_of (Array isum) (Array usum)) k = Ok q /\
    (0 <= q <= 100)%Q /\ (i = 0 -> q = 0%Q).
Proof.
  intros Hi Hu Hle.
  exists (fmul (fdiv (inject_Z i) (fadd (inject_Z u) (1 # 10000000000))) 100).
  split; [|split].
  - unfold iou_of, astype_float, broadcast, getitem.
    rewrite list_lookup_fmap, lookup_zip_with, !list_lookup_fmap, Hi, Hu.
    reflexivity.
  - by apply iou_bounds.
  - intros ->. apply iou_zero.
Qed.

Lemma iou_of_class_bounds_witness :
  exists q,
    getitem (iou_of (Array [4; 1]) (Array [7; 4])) 1 = Ok q /\
    (0 <= q <= 100)%Q /\ (1 = 0 -> q = 0%Q).
Proof.
  apply (iou_of_class_bounds [4; 1] [7; 4] 1 1 4); [reflexivity..|lia].
Defined.

Section More.
Context {Tensor : Type}.
Variable shape : Tensor -> Z * Z.
Variable interpolate : Tensor -> Z * Z -> interp_mode -> bool -> Tensor.
Variable model : Tensor -> Tensor -> Tensor.
Variable argmax : Tensor -> list Z.
Variable intersectionAndUnion :
  list Z -> list Z -> Z -> Z -> list Z * list Z * list Z.
Variable cfg : Config.

#[local] Abbreviation count_batch := (count_batch shape interpolate model
  argmax intersectionAndUnion cfg).
#[local] Abbreviation eval_loop := (eval_loop shape interpolate model argmax
  intersectionAndUnion cfg).
#[local] Abbreviation evaluate := (evaluate shape interpolate model argmax
  intersectionAndUnion).
#[local] Abbreviation pixel_totals := (pixel_totals shape interpolate model
  argmax intersectionAndUnion cfg).
#[local] Abbreviation shard_counts := (shard_counts shape interpolate model
  argmax intersectionAndUnion cfg).
#[local] Abbreviation group_counts := (group_counts shape interpolate model
  argmax intersectionAndUnion cfg).

(** X3: with the multiplier [0], [evaluate] raises [ZeroDivisionError]
    whatever the loader and the group hold: in line 47 on the first batch,
    or in line 76 when there is no batch. *)
Theorem evaluate_multiplier_zero (group : list (list (batch Tensor)))
    (loader : list (batch Tensor)) :
  evaluate group loader cfg (Some 0) = Raise ZeroDivisionError.
Proof.
  unfold Evaluation.evaluate. destruct loader as [|b loader]; [reflexivity|].
  simpl. unfold Evaluation.count_batch, predict.
  destruct (shape (imgA b)) as [h w]. reflexivity.
Qed.

(** X4: on a rank whose loader is empty, [evaluate] raises
    [ZeroDivisionError] (line 76), whatever the multiplier and whatever its
    peers hold. *)
Theorem evaluate_empty_loader (group : list (list (batch Tensor)))
    (multiplier : option Z) :
  evaluate group [] cfg multiplier = Raise ZeroDivisionError.
Proof. reflexivity. Qed.

Lemma heads_missing (multiplier : option Z)
    (group : list (list (batch Tensor))) :
  ~ Forall (fun shard => (1 <= length shard)%nat) group ->
  mapM (fun shard => b' ← head shard;
                     to_option (count_batch multiplier b')) group = None.
Proof.
  intros Hn. apply eq_None_not_Some. rewrite mapM_is_Some.
  intros H. apply Hn. eapply Forall_impl; [exact H|].
  intros [|b shard] Hs; simpl in *; [by destruct Hs|lia].
Qed.

Lemma eval_loop_deadlock (multiplier : option Z) :
  forall (loader : list (batch Tensor)) (group : list (list (batch Tensor)))
         (m : meters),
  Forall (batch_fits shape multiplier) loader ->
  (exists shard, shard ∈ group /\ (length shard < length loader)%nat) ->
  eval_loop multiplier loader group m = Raise Deadlock.
Proof.
  induction loader as [|b loader IH]; intros group m Hfit (shard & Hin & Hlen).
  { simpl in Hlen. lia. }
  apply Forall_cons in Hfit as [Hb Hfit].
  simpl. rewrite (EvalFacts.count_batch_total _ _ _ _ _ _ _ _ Hb). simpl.
  destruct (decide (Forall (fun s : list (batch Tensor) =>
                              (1 <= length s)%nat) group)) as [Hall|Hnil].
  - destruct (mapM _ group) as [peers|]; [|reflexivity].
    simpl. apply IH; [exact Hfit|]. exists (tail shard). split.
    + by apply list_elem_of_fmap_2.
    + rewrite Forall_forall in Hall. specialize (Hall shard Hin).
      destruct shard; simpl in *; lia.
  - rewrite heads_missing by done. reflexivity.
Qed.

(** X5: when some rank of the group has fewer batches than this one, whose
    own batches the resize accepts, this rank does not complete its pass:
    its collective call for the first batch the peer lacks has no
    counterpart in the peer's pass, the outcome [Deadlock]. *)
Theorem evaluate_deadlock (multiplier : option Z)
    (group : list (list (batch Tensor))) (loader shard : list (batch Tensor)) :
  Forall (batch_fits shape multiplier) loader ->
  shard ∈ group -> (length shard < length loader)%nat ->
  evaluate group loader cfg multiplier = Raise Deadlock.
Proof.
  intros Hfit Hin Hlen. unfold Evaluation.evaluate.
  rewrite eval_loop_deadlock; [reflexivity|done|eauto].
Qed.

(** The reduced sum of a count array, as one sum over every batch of the
    group. *)
Lemma reduced_sum_flat (multiplier : option Z) (field : counts -> list Z)
    (group : list (list (batch Tensor))) :
  all_reduce (local_sum field <$> group_counts multiplier group)
  = local_sum field (shard_counts multiplier (concat group)).
Proof.
  rewrite EvalFacts.all_reduce_concat, EvalFacts.group_counts_concat.
  reflexivity.
Qed.

(** X6: in a pass over shards of equal length, any two ranks that return
    from [evaluate] return the same [iou_class]. *)
Theorem evaluate_ranks_agree_on_iou (multiplier : option Z)
    (group : list (list (batch Tensor)))
    (loader loader' : list (batch Tensor)) (n : nat) :
  multiplier <> Some 0 ->
  loader ∈ group -> loader' ∈ group ->
  Forall (fun shard => length shard = n) group ->
  is_Some (to_option (evaluate group loader cfg multiplier)) ->
  is_Some (to_option (evaluate group loader' cfg multiplier)) ->
  fst <$> to_option (evaluate group loader cfg multiplier)
  = fst <$> to_option (evaluate group loader' cfg multiplier).
Proof.
  intros _ Hin Hin' Hlen.
  destruct (evaluate group loader cfg multiplier) as [[iou acc]|] eqn:E;
    [|intros [? H]; discriminate H].
  destruct (evaluate group loader' cfg multiplier) as [[iou' acc']|] eqn:E';
    [|intros _ [? H]; discriminate H].
  intros _ _. simpl. f_equal.
  rewrite (EvalFacts.evaluate_returned_iou _ _ _ _ _ _ _ _ _ _ _ _ Hin Hlen E).
  rewrite (EvalFacts.evaluate_returned_iou _ _ _ _ _ _ _ _ _ _ _ _ Hin' Hlen
             E').
  reflexivity.
Qed.

(** X7: the intersection and union counts a pass ends with, and so the
    IoU, depend only on which batches the group holds, not on how they
    are dealt to the ranks nor in which order: two groups of equal-length
    shards, of batches the resize accepts, holding the same batches up to
    permutation end with the same meters on every rank. *)
Theorem evaluate_counts_partition_independent (multiplier : option Z)
    (group group' : list (list (batch Tensor)))
    (loader loader' : list (batch Tensor)) (n n' : nat) :
  Forall (Forall (batch_fits shape multiplier)) group ->
  Forall (Forall (batch_fits shape multiplier)) group' ->
  loader ∈ group -> loader' ∈ group' ->
  Forall (fun shard => length shard = n) group ->
  Forall (fun shard => length shard = n') group' ->
  concat group ≡ₚ concat group' ->
  exists m m',
    eval_loop multiplier loader group new_meters = Ok m /\
    eval_loop multiplier loader' group' new_meters = Ok m' /\
    AverageMeter.sum (intersection_meter m)
    = AverageMeter.sum (intersection_meter m') /\
    AverageMeter.sum (union_meter m) = AverageMeter.sum (union_meter m') /\
    iou_of (AverageMeter.sum (intersection_meter m))
           (AverageMeter.sum (union_meter m))
    = iou_of (AverageMeter.sum (intersection_meter m'))
             (AverageMeter.sum (union_meter m')).
Proof.
  intros Hg Hg' Hin Hin' Hlen Hlen' Hperm.
  assert (forall field,
            all_reduce (local_sum field <$> group_counts multiplier group)
            = all_reduce (local_sum field <$> group_counts multiplier group'))
    as Hsame.
  { intros field. rewrite !reduced_sum_flat. apply local_sum_perm.
    unfold Evaluation.shard_counts. by apply fmap_Permutation. }
  eexists _, _.
  split; [exact (EvalFacts.eval_loop_final _ _ _ _ _ _ _ group loader n
                   Hg Hin Hlen)|].
  split; [exact (EvalFacts.eval_loop_final _ _ _ _ _ _ _ group' loader' n'
                   Hg' Hin' Hlen')|].
  cbn [intersection_meter union_meter AverageMeter.sum].
  rewrite !Hsame. repeat split.
Qed.

(** X8: with a single worker, whose batches the resize accepts, the
    collective sum changes nothing: [evaluate] returns the IoU of the
    counts summed over its own loader and the accuracy of all pixels of
    the pass. *)
Theorem evaluate_single_worker (multiplier : option Z)
    (loader : list (batch Tensor)) :
  Forall (batch_fits shape multiplier) loader ->
  exists c t,
    pixel_totals multiplier [loader] = Ok (c, t) /\
    evaluate [loader] loader cfg multiplier
    = (acc ← acc_of (Scalar c) (Scalar t);
       mret (iou_of
               (local_sum intersection (shard_counts multiplier loader))
               (local_sum union (shard_counts multiplier loader)),
             acc)).
Proof.
  intros Hfit. eexists _, _.
  split; [exact (EvalFacts.pixel_totals_eq _ _ _ _ _ _ _ loader Hfit)|].
  rewrite (EvalFacts.evaluate_eq _ _ _ _ _ _ _ [loader] loader
             (length loader)).
  - rewrite !reduced_sum_flat. simpl. rewrite app_nil_r. reflexivity.
  - by repeat constructor.
  - apply list_elem_of_here.
  - repeat constructor.
Qed.

Lemma count_batch_correct_le (multiplier : option Z) (b : batch Tensor)
    (c : counts) :
  count_batch multiplier b = Ok c -> 0 <= correct c <= numel c.
Proof.
  unfold Evaluation.count_batch.
  destruct (predict shape interpolate model argmax multiplier (imgA b)
              (imgB b)) as [pred|]; [|discriminate].
  simpl. destruct intersectionAndUnion as [[i u] t]. intros [= <-]. simpl.
  pose proof (length_filter (fun pm : Z * Z => pm.1 = pm.2)
                (zip pred (mask b))) as Hf.
  rewrite length_zip_with in Hf. lia.
Qed.

Lemma eval_loop_pixels (multiplier : option Z) (loader : list (batch Tensor)) :
  forall (group : list (list (batch Tensor))) (m m' : meters),
  eval_loop multiplier loader group m = Ok m' ->
  (exists c t, AverageMeter.sum (correct_pixel m) = Scalar c /\
               AverageMeter.sum (total_pixel m) = Scalar t /\ 0 <= c <= t) ->
  exists c t, AverageMeter.sum (correct_pixel m') = Scalar c /\
              AverageMeter.sum (total_pixel m') = Scalar t /\ 0 <= c <= t.
Proof.
  induction loader as [|b loader IH]; intros group m m'; simpl.
  { intros [= <-]. done. }
  destruct (count_batch multiplier b) as [c0|] eqn:Hc; [|discriminate].
  simpl.
  destruct (mapM _ group) as [peers|]; [|discriminate]. simpl.
  intros Hloop (c & t & Hcs & Hts & Hle). eapply IH; [exact Hloop|].
  pose proof (count_batch_correct_le _ _ _ Hc).
  exists (c + correct c0), (t + numel c0).
  unfold update_meters, AverageMeter.update. simpl. rewrite Hcs, Hts.
  repeat split; lia.
Qed.

(** X9: whenever [evaluate] returns, its overall accuracy lies between 0
    and 100. *)
Theorem evaluate_accuracy_bounds (multiplier : option Z)
    (group : list (list (batch Tensor))) (loader : list (batch Tensor))
    (iou_class : ndarray Q) (acc : Q) :
  evaluate group loader cfg multiplier = Ok (iou_class, acc) ->
  (0 <= acc <= 100)%Q.
Proof.
  unfold Evaluation.evaluate.
  destruct (eval_loop multiplier loader group new_meters) as [m|] eqn:Hloop;
    [|discriminate].
  simpl.
  destruct (eval_loop_pixels _ _ _ _ _ Hloop) as (c & t & Hc & Ht & Hle).
  { exists 0, 0. repeat split; lia. }
  rewrite Hc, Ht. unfold acc_of, truediv.
  destruct (Qeq_bool (inject_Z t) 0) eqn:Hz; [discriminate|].
  simpl. intros [= _ <-]. apply percent_bounds; [exact Hle|].
  intros ->. discriminate.
Qed.

End More.

Lemma evaluate_deadlock_witness :
  Toy.evaluate ToyMore.short_peer ToyMore.wide0 Toy.cfg (Some 14)
  = Raise Deadlock.
Proof.
  apply (evaluate_deadlock Toy.shape Toy.interpolate Toy.model Toy.argmax
           Toy.intersectionAndUnion Toy.cfg (Some 14) ToyMore.short_peer
           ToyMore.wide0 []).
  - repeat constructor; simpl; lia.
  - apply list_elem_of_further, list_elem_of_here.
  - simpl. lia.
Defined.

Lemma evaluate_ranks_agree_on_iou_witness :
  fst <$> to_option
            (Toy.evaluate ToyMore.wide_group ToyMore.wide0 Toy.cfg (Some 14))
  = fst <$> to_option
              (Toy.evaluate ToyMore.wide_group ToyMore.wide1 Toy.cfg
                 (Some 14)).
Proof.
  apply (evaluate_ranks_agree_on_iou Toy.shape Toy.interpolate Toy.model
           Toy.argmax Toy.intersectionAndUnion Toy.cfg (Some 14)
           ToyMore.wide_group ToyMore.wide0 ToyMore.wide1 1%nat).
  - discriminate.
  - apply list_elem_of_here.
  - apply list_elem_of_further, list_elem_of_here.
  - repeat constructor.
  - vm_compute. eauto.
  - vm_compute. eauto.
Defined.

Lemma evaluate_counts_partition_independent_witness :
  exists m m',
    eval_loop Toy.shape Toy.interpolate Toy.model Toy.argmax
      Toy.intersectionAndUnion Toy.cfg (Some 14) ToyMore.wide1
      ToyMore.wide_group new_meters
    = Ok m /\
    eval_loop Toy.shape Toy.interpolate Toy.model Toy.argmax
      Toy.intersectionAndUnion Toy.cfg (Some 14)
      (ToyMore.wide1 ++ ToyMore.wide0) ToyMore.wide_one_worker new_meters
    = Ok m' /\
    AverageMeter.sum (intersection_meter m)
    = AverageMeter.sum (intersection_meter m') /\
    AverageMeter.sum (union_meter m) = AverageMeter.sum (union_meter m') /\
    iou_of (AverageMeter.sum (intersection_meter m))
           (AverageMeter.sum (union_meter m))
    = iou_of (AverageMeter.sum (intersection_meter m'))
             (AverageMeter.sum (union_meter m')).
Proof.
  apply (evaluate_counts_partition_independent Toy.shape Toy.interpolate
           Toy.model Toy.argmax Toy.intersectionAndUnion Toy.cfg (Some 14)
           ToyMore.wide_group ToyMore.wide_one_worker ToyMore.wide1
           (ToyMore.wide1 ++ ToyMore.wide0) 1%nat 2%nat).
  - repeat constructor; simpl; lia.
  - repeat constructor; simpl; lia.
  - apply list_elem_of_further, list_elem_of_here.
  - apply list_elem_of_here.
  - repeat constructor.
  - repeat constructor.
  - apply Permutation_swap.
Defined.

Lemma evaluate_single_worker_witness :
  exists c t,
    pixel_totals Toy.shape Toy.interpolate Toy.model Toy.argmax
      Toy.intersectionAndUnion Toy.cfg (Some 14) [ToyMore.wide0]
    = Ok (c, t) /\
    Toy.evaluate [ToyMore.wide0] ToyMore.wide0 Toy.cfg (Some 14)
    = (acc ← acc_of (Scalar c) (Scalar t);
       mret (iou_of
               (local_sum intersection
                  (shard_counts Toy.shape Toy.interpolate Toy.model
                     Toy.argmax Toy.intersectionAndUnion Toy.cfg (Some 14)
                     ToyMore.wide0))
               (local_sum union
                  (shard_counts Toy.shape Toy.interpolate Toy.model
                     Toy.argmax Toy.intersectionAndUnion Toy.cfg (Some 14)
                     ToyMore.wide0)),
             acc)).
Proof.
  apply (evaluate_single_worker Toy.shape Toy.interpolate Toy.model
           Toy.argmax Toy.intersectionAndUnion Toy.cfg (Some 14)
           ToyMore.wide0).
  repeat constructor; simpl; lia.
Defined.

Lemma evaluate_accuracy_bounds_witness : (0 <= 25 <= 100)%Q.
Proof.
  apply (evaluate_accuracy_bounds Toy.shape Toy.interpolate Toy.model
           Toy.argmax Toy.intersectionAndUnion Toy.cfg None Toy.group
           Toy.shard0
           (Array [4000000000000 # 70000000001; 1000000000000 # 40000000001])
           25%Q).
  reflexivity.
Defined.

End EvalMore.

(** ** The rates used by the optimizer, and the progress line *)

Module ScheduleMore.
Import Schedule.

Lemma float_pow_one (y : R) : float_pow 1 y = 1%R.
Proof.
  unfold float_pow. destruct (Rle_dec 1 0); [lra|].
  unfold Rpower. rewrite ln_1, Rmult_0_r. apply exp_0.
Qed.

Lemma float_pow_unit_interval (x y : R) :
  (0 < y)%R -> (0 < x <= 1)%R -> (0 < float_pow x y <= 1)%R.
Proof.
  intros Hy Hx. unfold float_pow. destruct (Rle_dec x 0); [lra|]. split.
  - unfold Rpower. apply exp_pos.
  - assert (Rpower 1 y = 1%R) as H1.
    { unfold Rpower. rewrite ln_1, Rmult_0_r. apply exp_0. }
    apply Rle_trans with (Rpower 1 y); [apply Rle_Rpower_l; lra|].
    rewrite H1. lra.
Qed.

Lemma lr_at_start (base : R) (T : Z) : lr_at base 0 T = base.
Proof.
  unfold lr_at. replace (1 - 0 / IZR T)%R with 1%R by (unfold Rdiv; lra).
  rewrite float_pow_one. lra.
Qed.

Lemma lr_at_inside (base : R) (i T : Z) :
  (0 < base)%R -> 0 <= i < T -> (0 < lr_at base i T <= base)%R.
Proof.
  intros Hb Hi. unfold lr_at.
  assert (0 < 1 - IZR i / IZR T <= 1)%R as Hx.
  { split; [|apply ScheduleFacts.decay_base_bounds; lia].
    assert (0 < IZR T)%R as HT by (apply IZR_lt; lia).
    assert (IZR i < IZR T)%R as HiT by (apply IZR_lt; lia).
    assert (0 < / IZR T)%R as Hr by (apply Rinv_0_lt_compat; lra).
    assert (IZR T * / IZR T = 1)%R as Hone by (apply Rinv_r; lra).
    unfold Rdiv. nra. }
  destruct (float_pow_unit_interval _ (9 / 10) ltac:(lra) Hx) as [H1 H2].
  split; nra.
Qed.

Section Loop.
Context {Params : Type}.
Variable optimizer_step : Params -> R -> R -> Z -> Z -> Params.
Variable cfg : Config.
Variable len_trainloader : Z.

#[local] Abbreviation train_steps :=
  (train_steps optimizer_step cfg len_trainloader).
#[local] Abbreviation train_epoch :=
  (train_epoch optimizer_step cfg len_trainloader).
#[local] Abbreviation T := (total_iters cfg len_trainloader).
#[local] Abbreviation base := (Q2R (cfg_lr cfg)).
#[local] Abbreviation multi := (Q2R (cfg_lr_multi cfg)).

Lemma train_steps_none (epoch k : Z) (s : loop_state Params) :
  k <= 0 -> train_steps epoch k s = s.
Proof.
  intros Hk. unfold Schedule.train_steps, range.
  rewrite seqZ_nil by lia. reflexivity.
Qed.

(** X11: at every step the loop runs, in an epoch of [0 .. epochs - 1],
    the counter [iters] stays below [total_iters] and the backbone rate it
    sets is positive and at most [cfg['lr']]: the zero of the schedule at
    [total_iters] is never assigned. *)
Theorem lr_stays_positive_in_loop (epoch k : Z) (s : loop_state Params) :
  (0 < cfg_lr cfg)%Q ->
  0 <= epoch < cfg_epochs cfg -> 0 <= k < len_trainloader ->
  let s' := train_steps epoch (k + 1) s in
  0 <= iters s' < T /\ (0 < lr0 s' <= base)%R.
Proof.
  intros Hlr He Hk s'. unfold s'.
  rewrite ScheduleFacts.train_steps_succ by lia.
  cbn [train_step iters lr0].
  assert (0 <= epoch * len_trainloader + k < T) as Hi.
  { unfold total_iters. nia. }
  split; [exact Hi|]. apply lr_at_inside; [|exact Hi].
  rewrite <- RMicromega.Q2R_0. by apply Qlt_Rlt.
Qed.

(** X12: the rates are updated after [optimizer.step()], so each step is
    taken with the rates the previous one left: the first step of an epoch
    uses the rates the loop was entered with, and the step [k >= 1] uses
    the schedule at [epoch * len(trainloader) + k - 1]. *)
Theorem optimizer_step_uses_previous_rates (epoch k : Z)
    (s : loop_state Params) :
  1 <= k ->
  let lr := lr_at base (epoch * len_trainloader + (k - 1)) T in
  params (train_steps epoch 1 s)
  = optimizer_step (params s) (lr0 s) (lr1 s) epoch 0 /\
  params (train_steps epoch (k + 1) s)
  = optimizer_step (params (train_steps epoch k s)) lr (lr * multi)%R epoch k.
Proof.
  intros Hk lr. split.
  - rewrite (ScheduleFacts.train_steps_succ _ _ _ epoch 0) by lia.
    rewrite train_steps_none by lia. reflexivity.
  - assert (train_steps epoch k s
            = train_step optimizer_step cfg len_trainloader epoch
                (train_steps epoch (k - 1) s) (k - 1)) as Hprev.
    { replace k with ((k - 1) + 1) at 1 by lia.
      apply ScheduleFacts.train_steps_succ. lia. }
    assert (lr0 (train_steps epoch k s) = lr) as H0
      by (rewrite Hprev; reflexivity).
    assert (lr1 (train_steps epoch k s) = (lr * multi)%R) as H1
      by (rewrite Hprev; reflexivity).
    rewrite ScheduleFacts.train_steps_succ by lia.
    cbn [train_step params]. rewrite H0, H1. reflexivity.
Qed.

(** X13: over a non-empty loader a whole epoch ends with
    [iters = epoch * len + len - 1] and the two groups at the schedule of
    that iteration; over an empty loader no step runs and the state is
    left as it was. *)
Theorem train_epoch_end (epoch : Z) (s : loop_state Params) :
  (0 < len_trainloader ->
     let i := epoch * len_trainloader + len_trainloader - 1 in
     iters (train_epoch epoch s) = i /\
     lr0 (train_epoch epoch s) = lr_at base i T /\
     lr1 (train_epoch epoch s) = (lr_at base i T * multi)%R) /\
  (len_trainloader <= 0 -> train_epoch epoch s = s).
Proof.
  unfold Schedule.train_epoch. split.
  - intros Hlen.
    assert (train_steps epoch len_trainloader s
            = train_step optimizer_step cfg len_trainloader epoch
                (train_steps epoch (len_trainloader - 1) s)
                (len_trainloader - 1)) as Hlast.
    { replace len_trainloader with ((len_trainloader - 1) + 1) at 2 by lia.
      apply ScheduleFacts.train_steps_succ. lia. }
    rewrite Hlast. cbn [train_step iters lr0 lr1].
    replace (epoch * len_trainloader + (len_trainloader - 1))
      with (epoch * len_trainloader + len_trainloader - 1) by lia.
    repeat split.
  - intros Hlen. by apply train_steps_none.
Qed.

(** X14: a run from scratch takes its first two optimizer steps with
    the configured rates, [cfg['lr']] for the backbone and
    [cfg['lr'] * cfg['lr_multi']] for the head: the groups are created
    with them and the update after the first step computes them again. *)
Theorem fresh_run_first_two_steps (p : Params) :
  0 < len_trainloader -> 0 < cfg_epochs cfg ->
  let s0 := Optimizer.initial_state cfg p in
  lr0 (train_steps 0 1 s0) = base /\
  lr1 (train_steps 0 1 s0) = (base * multi)%R /\
  params (train_steps 0 2 s0)
  = optimizer_step (optimizer_step p base (base * multi)%R 0 0)
      base (base * multi)%R 0 1.
Proof.
  intros Hlen Hep s0.
  assert (train_steps 0 1 s0
          = train_step optimizer_step cfg len_trainloader 0 s0 0) as H1.
  { rewrite (ScheduleFacts.train_steps_succ _ _ _ 0 0) by lia.
    rewrite train_steps_none by lia. reflexivity. }
  rewrite (ScheduleFacts.train_steps_succ _ _ _ 0 1) by lia.
  rewrite H1. cbn [train_step params lr0 lr1 Optimizer.initial_state s0].
  replace (0 * len_trainloader + 0) with 0 by lia.
  rewrite lr_at_start. repeat split.
Qed.

End Loop.

Lemma lr_stays_positive_in_loop_witness :
  let s' := train_steps ToyMore.count_steps Toy.cfg 5 2 (4 + 1)
              (Optimizer.initial_state Toy.cfg 0) in
  0 <= iters s' < total_iters Toy.cfg 5 /\
  (0 < lr0 s' <= Q2R (cfg_lr Toy.cfg))%R.
Proof.
  apply (lr_stays_positive_in_loop ToyMore.count_steps Toy.cfg 5 2 4
           (Optimizer.initial_state Toy.cfg 0));
    [reflexivity | simpl; lia | lia].
Defined.

Lemma optimizer_step_uses_previous_rates_witness :
  let s := Optimizer.initial_state Toy.cfg 0 in
  let lr := lr_at (Q2R (cfg_lr Toy.cfg)) (2 * 5 + (3 - 1))
              (total_iters Toy.cfg 5) in
  params (train_steps ToyMore.count_steps Toy.cfg 5 2 1 s)
  = ToyMore.count_steps (params s) (lr0 s) (lr1 s) 2 0 /\
  params (train_steps ToyMore.count_steps Toy.cfg 5 2 (3 + 1) s)
  = ToyMore.count_steps
      (params (train_steps ToyMore.count_steps Toy.cfg 5 2 3 s))
      lr (lr * Q2R (cfg_lr_multi Toy.cfg))%R 2 3.
Proof.
  apply (optimizer_step_uses_previous_rates ToyMore.count_steps Toy.cfg 5 2 3
           (Optimizer.initial_state Toy.cfg 0)).
  lia.
Defined.

Lemma fresh_run_first_two_steps_witness :
  let s0 := Optimizer.initial_state Toy.cfg 0 in
  let base := Q2R (cfg_lr Toy.cfg) in
  let multi := Q2R (cfg_lr_multi Toy.cfg) in
  lr0 (train_steps ToyMore.count_steps Toy.cfg 5 0 1 s0) = base /\
  lr1 (train_steps ToyMore.count_steps Toy.cfg 5 0 1 s0) = (base * multi)%R /\
  params (train_steps ToyMore.count_steps Toy.cfg 5 0 2 s0)
  = ToyMore.count_steps (ToyMore.count_steps 0 base (base * multi)%R 0 0)
      base (base * multi)%R 0 1.
Proof.
  apply (fresh_run_first_two_steps ToyMore.count_steps Toy.cfg 5 0);
    [lia | simpl; lia].
Defined.

(** X15: the interval of the progress line is at least 2, so its modulo
    never divides by zero; rank 0 prints at the steps the interval divides,
    step 0 among them, and no other rank prints. *)
Theorem progress_line_steps (rank len_trainloader i : Z) :
  2 <= Logging.log_interval len_trainloader /\
  Logging.logs_step 0 len_trainloader 0 = Ok true /\
  exists b,
    Logging.logs_step rank len_trainloader i = Ok b /\
    (b = true <-> rank = 0 /\ (Logging.log_interval len_trainloader | i)).
Proof.
  assert (2 <= Logging.log_interval len_trainloader) as H2.
  { unfold Logging.log_interval. lia. }
  split; [exact H2|]. split.
  - unfold Logging.logs_step. rewrite decide_False by lia.
    rewrite Z.mod_0_l by lia. reflexivity.
  - unfold Logging.logs_step. rewrite decide_False by lia.
    eexists. split; [reflexivity|].
    rewrite andb_true_iff, !Z.eqb_eq.
    rewrite (Z.mod_divide i _) by lia. tauto.
Qed.

End ScheduleMore.

(** ** Whole runs: files, resumption, the best checkpoint *)

Module TrainMore.
Import Train Resume.

Section Runs.
Context {Weights OptState : Type}.
Variable init_model : Config -> Weights.
Variable init_optimizer : Config -> Weights -> OptState.
Variable train_one_epoch :
  Config -> DataLoader -> Z -> Weights -> OptState -> Weights * OptState.
Variable evaluate :
  Weights -> DataLoader -> Config -> option Z -> result (ndarray Q * Q).

#[local] Abbreviation State := (TrainingState Weights OptState).
#[local] Abbreviation Files := (gmap string (blob Weights OptState)).
#[local] Abbreviation Writes := (list (string * checkpoint Weights OptState)).
#[local] Abbreviation startup := (startup init_model init_optimizer).
#[local] Abbreviation run_epoch := (run_epoch train_one_epoch evaluate).
#[local] Abbreviation epoch_loop := (epoch_loop train_one_epoch evaluate).
#[local] Abbreviation main :=
  (main init_model init_optimizer train_one_epoch evaluate).

Lemma apply_writes_app (ws ws' : Writes) (fs : Files) :
  apply_writes (ws ++ ws') fs = apply_writes ws' (apply_writes ws fs).
Proof. unfold apply_writes. apply foldl_app. Qed.

Lemma apply_writes_other (ws : Writes) (fs : Files) (p : string) :
  Forall (fun w => w.1 <> p) ws -> apply_writes ws fs !! p = fs !! p.
Proof.
  revert fs. induction ws as [|w ws IH]; intros fs Hall; [reflexivity|].
  apply Forall_cons in Hall as [Hw Hall].
  change (apply_writes (w :: ws) fs)
    with (apply_writes ws (torch_save w.2 w.1 fs)).
  rewrite IH by exact Hall. unfold torch_save. by apply lookup_insert_ne.
Qed.

Lemma checkpoint_writes_paths (rank : Z) (save_path : string) (s : State)
    (is_best : bool) :
  Forall (fun w => w.1 = path_join save_path "latest.pth" \/
                   w.1 = path_join save_path "best.pth")
    (checkpoint_writes rank save_path s is_best) /\
  (rank <> 0 -> checkpoint_writes rank save_path s is_best = []).
Proof.
  unfold checkpoint_writes. destruct (decide (rank = 0)), is_best;
    (split; [repeat (constructor; [simpl; auto|]); constructor
            | intros; done]).
Qed.

(** The files a loop ends with are the initial ones with its writes
    applied in order, all of them to [latest.pth] or [best.pth]. *)
Lemma epoch_loop_files (rank : Z) (cfg : Config) (save_path : string)
    (es : list Z) :
  forall (s : State) (fs : Files),
  let r := epoch_loop rank cfg save_path es s fs in
  files r = apply_writes (writes r) fs /\
  Forall (fun w => w.1 = path_join save_path "latest.pth" \/
                   w.1 = path_join save_path "best.pth") (writes r) /\
  (rank <> 0 -> writes r = []).
Proof.
  induction es as [|e es IH]; intros s fs; simpl.
  { repeat split; constructor. }
  destruct (run_epoch rank cfg save_path e s) as [[s' ws]|x] eqn:Hrun; simpl.
  2:{ repeat split; constructor. }
  destruct (TrainFacts.run_epoch_inv _ _ _ _ _ _ _ _ _ Hrun)
    as (w & o & iou & acc & _ & Hws).
  destruct (IH s' (apply_writes ws fs)) as (IH1 & IH2 & IH3).
  destruct (checkpoint_writes_paths rank save_path s'
              (track_best e w o iou acc s).1) as [Hp Hn].
  rewrite <- Hws in Hp, Hn.
  split; [|split].
  - rewrite apply_writes_app. exact IH1.
  - apply Forall_app. by split.
  - intros Hrank. rewrite (IH3 Hrank), (Hn Hrank). reflexivity.
Qed.

Lemma last_state_cons (s s' : State) (t : list State) (ws : Writes)
    (fs : Files) (x : option failure) :
  last_state s {| trajectory := s' :: t; writes := ws; files := fs;
                  raised := x |}
  = default s' (last t).
Proof.
  unfold last_state. simpl. destruct t as [|s'' t]; [reflexivity|].
  rewrite last_cons. destruct (last (s'' :: t)) eqn:E; [reflexivity|].
  by apply last_None in E.
Qed.

(** After a loop on rank 0 that completed an epoch, [latest.pth] holds the
    state of the last completed one. *)
Lemma epoch_loop_latest (cfg : Config) (save_path : string) (es : list Z) :
  forall (s : State) (fs : Files),
  let r := epoch_loop 0 cfg save_path es s fs in
  trajectory r <> [] ->
  files r !! path_join save_path "latest.pth"
  = Some (Pickled (checkpoint_of (last_state s r))).
Proof.
  induction es as [|e es IH]; intros s fs; simpl; [done|].
  destruct (run_epoch 0 cfg save_path e s) as [[s' ws]|x] eqn:Hrun; simpl;
    [|done].
  intros _. rewrite last_state_cons.
  destruct (TrainFacts.run_epoch_inv _ _ _ _ _ _ _ _ _ Hrun)
    as (w & o & iou & acc & _ & Hws).
  set (r := epoch_loop 0 cfg save_path es s' (apply_writes ws fs)).
  change (default s' (last (trajectory r))) with (last_state s' r).
  destruct (trajectory r) as [|s'' t] eqn:Ht.
  - unfold last_state. rewrite Ht. simpl.
    destruct (epoch_loop_files 0 cfg save_path es s' (apply_writes ws fs))
      as (Hf & Hp & _).
    fold r in Hf, Hp.
    assert (writes r = []) as Hnil.
    { clear -Ht. subst r. destruct es as [|e' es]; [reflexivity|].
      simpl in *. destruct (run_epoch 0 cfg save_path e' s') as [[? ?]|];
        [discriminate|reflexivity]. }
    rewrite Hf, Hnil. simpl.
    rewrite Hws. unfold checkpoint_writes, apply_writes, torch_save.
    rewrite decide_True by done.
    destruct ((track_best e w o iou acc s).1); cbn [foldl fst snd].
    + rewrite lookup_insert_ne
        by (intros H; by apply (latest_ne_best save_path)).
      apply lookup_insert_eq.
    + apply lookup_insert_eq.
  - apply IH. fold r. rewrite Ht. done.
Qed.

(** The loop over two stretches of epochs is the loop over the first
    followed, if nothing was raised, by the loop over the second from the
    state and the files the first ended with. *)
Lemma epoch_loop_app (rank : Z) (cfg : Config) (save_path : string)
    (es1 es2 : list Z) :
  forall (s : State) (fs : Files),
  let r1 := epoch_loop rank cfg save_path es1 s fs in
  raised r1 = None ->
  let r2 := epoch_loop rank cfg save_path es2 (last_state s r1) (files r1) in
  epoch_loop rank cfg save_path (es1 ++ es2) s fs
  = {| trajectory := trajectory r1 ++ trajectory r2;
       writes := writes r1 ++ writes r2;
       files := files r2;
       raised := raised r2 |}.
Proof.
  induction es1 as [|e es1 IH]; intros s fs; simpl.
  { intros _. unfold last_state. simpl.
    by destruct (epoch_loop rank cfg save_path es2 s fs). }
  destruct (run_epoch rank cfg save_path e s) as [[s' ws]|x] eqn:Hrun; simpl;
    [|discriminate].
  intros Hr. rewrite last_state_cons.
  change (default s' (last (trajectory
            (epoch_loop rank cfg save_path es1 s' (apply_writes ws fs)))))
    with (last_state s'
            (epoch_loop rank cfg save_path es1 s' (apply_writes ws fs))).
  rewrite (IH s' (apply_writes ws fs) Hr). simpl.
  rewrite <- app_assoc. reflexivity.
Qed.

(** X17: every [torch.save] of a run goes to [latest.pth] or [best.pth]
    of its save directory, and a rank other than 0 makes none. *)
Theorem run_saves_only_checkpoints (rank : Z) (cfg : Config)
    (save_path : string) (fs : Files) :
  let r := main rank cfg save_path fs in
  Forall (fun w => w.1 = path_join save_path "latest.pth" \/
                   w.1 = path_join save_path "best.pth") (writes r) /\
  (rank <> 0 -> writes r = []).
Proof.
  unfold Train.main.
  destruct (startup (double_batch_size cfg) save_path fs) as [[k s]|x];
    simpl; [|by split].
  pose proof (epoch_loop_files rank (double_batch_size cfg) save_path
                (range (epoch s + 1) (cfg_epochs cfg)) s fs) as H.
  simpl in H. destruct H as (_ & Hp & Hn). by split.
Qed.

(** X18: on rank 0, once the loop has completed an epoch, [latest.pth]
    holds the state of the last epoch completed, also when a later epoch
    raised. *)
Theorem latest_holds_last_completed_epoch (cfg : Config)
    (save_path : string) (es : list Z) (s : State) (fs : Files) :
  let r := epoch_loop 0 cfg save_path es s fs in
  trajectory r <> [] ->
  files r !! path_join save_path "latest.pth"
  = Some (Pickled (checkpoint_of (last_state s r))) /\
  load_checkpoint (Pickled (checkpoint_of (last_state s r)))
  = Ok (last_state s r).
Proof.
  intros r Hne. split; [by apply epoch_loop_latest|].
  apply TrainFacts.load_checkpoint_of.
Qed.

(** X19: a run of rank 0 cut after it completed the epochs up to [k - 1]
    and started again on the files it left goes on exactly as the uncut
    run: the states, the writes, the final files and the outcome of the
    whole run are those of the first stretch followed by those of the
    restarted run. *)
Theorem resume_continues_run (cfg : Config) (save_path : string)
    (fs : Files) (kind : start_kind) (s0 : State) (k : Z) :
  let cfg' := double_batch_size cfg in
  startup cfg' save_path fs = Ok (kind, s0) ->
  epoch s0 + 1 < k <= cfg_epochs cfg ->
  let r1 := epoch_loop 0 cfg' save_path (range (epoch s0 + 1) k) s0 fs in
  raised r1 = None ->
  let whole := main 0 cfg save_path fs in
  let rest := main 0 cfg save_path (files r1) in
  trajectory whole = trajectory r1 ++ trajectory rest /\
  writes whole = writes r1 ++ writes rest /\
  files whole = files rest /\
  raised whole = raised rest.
Proof.
  intros cfg' Hstart Hk r1 Hr1 whole rest.
  destruct (TrainFacts.epoch_loop_epochs train_one_epoch evaluate 0 cfg'
              save_path (range (epoch s0 + 1) k) s0 fs) as [_ Hep].
  fold r1 in Hep. specialize (Hep Hr1).
  assert (trajectory r1 <> []) as Hne.
  { intros E. rewrite E in Hep. simpl in Hep.
    assert (epoch s0 + 1 ∈ range (epoch s0 + 1) k) as Hin
      by (apply TrainFacts.range_elem; lia).
    rewrite <- Hep in Hin. by apply elem_of_nil in Hin. }
  assert (epoch (last_state s0 r1) = k - 1) as Hlast.
  { assert (last (epoch <$> trajectory r1) = Some (k - 1)) as Hl
      by (rewrite Hep; apply TrainFacts.range_last; lia).
    rewrite fmap_last in Hl. unfold last_state.
    destruct (last (trajectory r1)) as [sl|]; [|discriminate].
    simpl in *. congruence. }
  assert (rest = epoch_loop 0 cfg' save_path (range k (cfg_epochs cfg))
                   (last_state s0 r1) (files r1)) as Hrest.
  { unfold rest, Train.main, Train.startup. fold cfg'.
    pose proof (epoch_loop_latest cfg' save_path _ s0 fs Hne) as Hlat.
    fold r1 in Hlat. rewrite Hlat.
    rewrite TrainFacts.load_checkpoint_of. simpl. rewrite Hlast.
    replace (k - 1 + 1) with k by lia. reflexivity. }
  assert (whole = epoch_loop 0 cfg' save_path
                    (range (epoch s0 + 1) k ++ range k (cfg_epochs cfg))
                    s0 fs) as Hwhole.
  { unfold whole, Train.main. fold cfg'. rewrite Hstart.
    f_equal. unfold range. simpl.
    replace (cfg_epochs cfg - (epoch s0 + 1))
      with ((k - (epoch s0 + 1)) + (cfg_epochs cfg - k)) by lia.
    rewrite seqZ_app by lia. do 2 f_equal. lia. }
  rewrite Hwhole, (epoch_loop_app 0 cfg' save_path _ _ s0 fs Hr1).
  fold r1. rewrite <- Hrest. by simpl.
Qed.

(** X20: started on the checkpoint of a run that already completed its
    last epoch, [main] runs no epoch, writes nothing and ends normally. *)
Theorem finished_run_restart_is_noop (rank : Z) (cfg : Config)
    (save_path : string) (fs : Files) (w : Weights) (o : OptState)
    (e : Z) (iou acc : Q) :
  fs !! path_join save_path "latest.pth"
  = Some (Pickled {| ck_model := Some w; ck_optimizer := Some o;
                     ck_epoch := Some e; ck_previous_best_iou := Some iou;
                     ck_previous_best_acc := Some acc |}) ->
  cfg_epochs cfg <= e + 1 ->
  main rank cfg save_path fs
  = {| trajectory := []; writes := []; files := fs; raised := None |}.
Proof.
  intros Hfs He. unfold Train.main, Train.startup. rewrite Hfs. simpl.
  unfold range. rewrite seqZ_nil by lia. reflexivity.
Qed.

(** X21: on rank 0 the trackers kept in the state are those of [best.pth]:
    if [best.pth] is absent or carries the trackers of the state the loop
    starts from, it carries the trackers of the state the loop ends in,
    whatever the epochs did. *)
Theorem best_checkpoint_carries_trackers (cfg : Config)
    (save_path : string) (es : list Z) :
  forall (s : State) (fs : Files),
  best_agrees save_path fs s ->
  let r := epoch_loop 0 cfg save_path es s fs in
  best_agrees save_path (files r) (last_state s r).
Proof.
  induction es as [|e es IH]; intros s fs Hagree; simpl; [exact Hagree|].
  destruct (run_epoch 0 cfg save_path e s) as [[s' ws]|x] eqn:Hrun; simpl;
    [|exact Hagree].
  rewrite last_state_cons.
  change (default s' (last (trajectory
            (epoch_loop 0 cfg save_path es s' (apply_writes ws fs)))))
    with (last_state s'
            (epoch_loop 0 cfg save_path es s' (apply_writes ws fs))).
  apply IH.
  destruct (TrainFacts.run_epoch_inv _ _ _ _ _ _ _ _ _ Hrun)
    as (w & o & iou & acc & Hs' & Hws).
  rewrite Hws. unfold checkpoint_writes, apply_writes, torch_save.
  rewrite decide_True by done. unfold best_agrees.
  destruct ((track_best e w o iou acc s).1) eqn:Hbest; cbn [foldl fst snd].
  - intros d. rewrite lookup_insert_eq. intros [= <-]. by split.
  - intros d.
    rewrite lookup_insert_ne by (by apply (latest_ne_best save_path)).
    intros Hd. destruct (Hagree d Hd) as [Hi Ha].
    rewrite Hi, Ha, Hs'. unfold track_best in *. simpl in *.
    unfold Py.max, Py.ge in *. rewrite Hbest. by split.
Qed.

(** X22: an epoch whose evaluation returns fewer than two classes stops
    at the read of [iou_class[1]] with [IndexError], on every rank and
    before any checkpoint of that epoch is written. *)
Theorem epoch_needs_change_class (rank : Z) (cfg : Config)
    (save_path : string) (e : Z) (s : State) (w : Weights) (o : OptState)
    (l : list Q) (acc : Q) (es : list Z) (fs : Files) :
  train_one_epoch cfg (trainloader cfg) e (model s) (optimizer s) = (w, o) ->
  evaluate w valloader cfg (multiplier_of cfg) = Ok (Array l, acc) ->
  (length l < 2)%nat ->
  run_epoch rank cfg save_path e s = Raise IndexError /\
  epoch_loop rank cfg save_path (e :: es) s fs
  = {| trajectory := []; writes := []; files := fs;
       raised := Some IndexError |}.
Proof.
  intros Htrain Heval Hlen.
  assert (run_epoch rank cfg save_path e s = Raise IndexError) as Hrun.
  { unfold Train.run_epoch. rewrite Htrain, Heval. simpl.
    destruct l as [|a [|a' l]]; simpl in *; try lia;
      destruct (decide (rank = 0)); reflexivity. }
  split; [exact Hrun|]. simpl. rewrite Hrun. reflexivity.
Qed.

End Runs.

Lemma latest_holds_last_completed_epoch_witness :
  let r := epoch_loop ToyRun.train_one_epoch ToyRun.evaluate 0 Toy.cfg "out"
             [1; 2] ToyRun.state0 ∅ in
  files r !! path_join "out" "latest.pth"
  = Some (Pickled (checkpoint_of (last_state ToyRun.state0 r))) /\
  load_checkpoint (Pickled (checkpoint_of (last_state ToyRun.state0 r)))
  = Ok (last_state ToyRun.state0 r).
Proof.
  apply (latest_holds_last_completed_epoch ToyRun.train_one_epoch
           ToyRun.evaluate Toy.cfg "out" [1; 2] ToyRun.state0 ∅).
  vm_compute. discriminate.
Defined.

Lemma resume_continues_run_witness :
  let cfg' := double_batch_size Toy.cfg in
  let s0 := fresh_state ToyRun.init_model ToyRun.init_optimizer cfg' in
  let r1 := epoch_loop ToyRun.train_one_epoch ToyRun.evaluate 0 cfg' "out"
              (range (epoch s0 + 1) 1) s0 ∅ in
  let whole := ToyRun.main 0 Toy.cfg "out" ∅ in
  let rest := ToyRun.main 0 Toy.cfg "out" (files r1) in
  trajectory whole = trajectory r1 ++ trajectory rest /\
  writes whole = writes r1 ++ writes rest /\
  files whole = files rest /\
  raised whole = raised rest.
Proof.
  apply (resume_continues_run ToyRun.init_model ToyRun.init_optimizer
           ToyRun.train_one_epoch ToyRun.evaluate Toy.cfg "out" ∅ Fresh
           (fresh_state ToyRun.init_model ToyRun.init_optimizer
              (double_batch_size Toy.cfg)) 1).
  - reflexivity.
  - simpl. lia.
  - reflexivity.
Defined.

Lemma finished_run_restart_is_noop_witness :
  Train.main ToyRun.init_model ToyRun.init_optimizer ToyRun.train_one_epoch
    ToyRun.evaluate 0 ToyMore.cfg_one_epoch "out" ToyRun.files0
  = {| trajectory := []; writes := []; files := ToyRun.files0;
       raised := None |}.
Proof.
  apply (finished_run_restart_is_noop ToyRun.init_model ToyRun.init_optimizer
           ToyRun.train_one_epoch ToyRun.evaluate 0 ToyMore.cfg_one_epoch
           "out" ToyRun.files0 3 1 0 (5 # 2)%Q 80%Q).
  - reflexivity.
  - simpl. lia.
Defined.

Lemma best_checkpoint_carries_trackers_witness :
  let r := epoch_loop ToyRun.train_one_epoch ToyRun.evaluate 0 Toy.cfg "out"
             [1; 2] ToyRun.state0 ∅ in
  best_agrees "out" (files r) (last_state ToyRun.state0 r).
Proof.
  apply (best_checkpoint_carries_trackers ToyRun.train_one_epoch
           ToyRun.evaluate Toy.cfg "out" [1; 2] ToyRun.state0 ∅).
  intros d Hd. rewrite lookup_empty in Hd. discriminate Hd.
Defined.

Lemma epoch_needs_change_class_witness :
  run_epoch ToyRun.train_one_epoch ToyMore.evaluate_one_class 0 Toy.cfg
    "out" 1 ToyRun.state0 = Raise IndexError /\
  epoch_loop ToyRun.train_one_epoch ToyMore.evaluate_one_class 0 Toy.cfg
    "out" [1; 2] ToyRun.state0 ∅
  = {| trajectory := []; writes := []; files := ∅;
       raised := Some IndexError |}.
Proof.
  apply (epoch_needs_change_class ToyRun.train_one_epoch
           ToyMore.evaluate_one_class 0 Toy.cfg "out" 1 ToyRun.state0 7 2
           [90%Q] 95%Q [2] ∅).
  - reflexivity.
  - reflexivity.
  - simpl. lia.
Defined.

(** A run with an epoch where the IoU falls: the best checkpoint keeps the
    earlier state, the latest one moves on. *)
Example best_and_latest_diverge :
  let r := epoch_loop ToyRun.train_one_epoch ToyMore.evaluate_falling 0
             Toy.cfg "out" [0; 1] ToyRun.state0 ∅ in
  (ck_epoch <$> (writes r).*2) = [Some 0; Some 0; Some 1] /\
  (writes r).*1 = ["out/latest.pth"; "out/best.pth"; "out/latest.pth"].
Proof. split; vm_compute; reflexivity. Qed.

End TrainMore.
